(** * Shiptivity: the client reordering handler of [src/server.js]

    A shallow embedding of [app.put('/api/v1/clients/:id')] and of the
    SQL statements it issues, with the properties of the reordering
    engine stated over it.

    The table is the list of its rows in the order [select *] returns
    them. Values have the types the route documents: an identifier and a
    priority are integers, a status is a string, and the two fields of
    the request body may each be absent. The source holds a priority in
    a JavaScript number and the model in an integer: the two agree on
    the safe integers (see [safe_integer] below), and the statements
    that reach the arithmetic on priorities assume either I1, which
    keeps every priority within the size of its lane, or that bound. The handler keeps two copies of
    the table, the store and the array [clients] it read from it; the
    model keeps both, since the handler writes to the array in places
    and reads the array, not the store, when it looks for clients. *)

From Stdlib Require Import ZArith Lia.
From stdpp Require Import base option list strings.

Local Open Scope Z_scope.

(** ** Rows of the [clients] table *)

(** A row as [select * from clients] returns it. The handler names the
    columns [id], [status] and [priority]; [extra] stands for the
    columns no statement of the handler names. *)
Module client.
Record t : Type := make {
  id : Z;
  extra : string;
  status : string;
  priority : Z;
}.

Definition with_priority (p : Z) (c : t) : t :=
  {| id := id c; extra := extra c; status := status c; priority := p |}.

Definition with_status (s : string) (c : t) : t :=
  {| id := id c; extra := extra c; status := s; priority := priority c |}.

#[global] Instance eq_dec : EqDecision t.
Proof. solve_decision. Defined.
End client.

(** ** The store: statements and their execution *)

(** The two prepared statements of the handler:
    [UPDATE clients SET priority = ? WHERE id = ?] and
    [UPDATE clients SET status = ?, priority = ? WHERE id = ?]. *)
Inductive statement : Type :=
| UPDATE_priority (priority id : Z)
| UPDATE_status_priority (status : string) (priority id : Z).

(** What a statement does to one row. *)
Definition update_row (q : statement) (c : client.t) : client.t :=
  match q with
  | UPDATE_priority p i =>
      if bool_decide (client.id c = i) then client.with_priority p c else c
  | UPDATE_status_priority s p i =>
      if bool_decide (client.id c = i)
      then client.with_status s (client.with_priority p c) else c
  end.

(** [stmt.run(...)]: every row the WHERE clause selects is rewritten. *)
Definition run (q : statement) (db : list client.t) : list client.t :=
  update_row q <$> db.

(** The database together with the statements issued so far. *)
Record world : Type := World {
  table : list client.t;
  issued : list statement;
}.

Definition exec (q : statement) (w : world) : world :=
  {| table := run q (table w); issued := issued w ++ [q] |}.

(** [db.prepare('select * from clients').all()] *)
Definition all (w : world) : list client.t := table w.

(** ** Request values *)

(** [status] and [priority] of [req.body]: [None] is an absent field.
    [if (status)] and [if (priority)] are JavaScript truthiness tests:
    the empty string and the number 0 fail them like an absent field. *)
Definition truthy_status (status : option string) : bool :=
  match status with
  | Some s => negb (String.eqb s "")
  | None => false
  end.

Definition truthy_priority (priority : option Z) : bool :=
  match priority with
  | Some p => negb (p =? 0)
  | None => false
  end.

(** ** The shift loops of the [priorityHasChanged] branch

    [while (currentPriority != oldPriority) { moveClient = clients.find(..);
       currentPriority++ (or --); if (moveClient) { UPDATE .. } }].
    [step] is [1] for the loop that moves the target up and [-1] for the
    one that moves it down. The result carries the number of iterations
    performed; [None] means the fuel ran out before the loop condition
    became false. [currentPriority + step] is the source's
    [currentPriority++] or [currentPriority--] as long as the counter is
    a safe integer, which it is between two safe integers. *)
Fixpoint shift_loop (step : Z) (fuel : nat) (clients : list client.t)
    (status : option string) (currentPriority oldPriority : Z) (w : world)
    : option (nat * world) :=
  if bool_decide (currentPriority = oldPriority) then Some (0%nat, w)
  else
    match fuel with
    | O => None
    | S fuel =>
        let moveClient :=
          list_find (λ c, client.priority c = currentPriority
                          ∧ Some (client.status c) = status) clients in
        let currentPriority := currentPriority + step in
        let w :=
          match moveClient with
          | Some (_, moveClient) =>
              exec (UPDATE_priority currentPriority (client.id moveClient)) w
          | None => w
          end in
        match shift_loop step fuel clients status currentPriority oldPriority w with
        | Some (n, w) => Some (S n, w)
        | None => None
        end
    end.

(** The body of [if (priorityHasChanged) { .. }]. *)
Definition priority_branch (fuel : nat) (clients : list client.t)
    (client : client.t) (status : option string) (priority : Z) (w : world)
    : option world :=
  let oldPriority := client.priority client in
  let step := if bool_decide (oldPriority > priority) then 1 else -1 in
  match shift_loop step fuel clients status priority oldPriority w with
  | Some (_, w) => Some (exec (UPDATE_priority priority (client.id client)) w)
  | None => None
  end.

(** ** The [for] loops that push a lane down or pull it up

    [for (i = 0; i < clients.length; i++) if (test(clients[i])) {
       clients[i].priority += step; UPDATE .. (clients[i].priority, clients[i].id) }].
    The array is mutated in place, and the value written to the store is
    read back from the array. [client.priority c + step] is the source's
    [+= 1] or [-= 1] as long as the priority is a safe integer. *)
Definition for_step (test : client.t → bool) (step : Z)
    (st : list client.t * world) (i : nat) : list client.t * world :=
  let '(clients, w) := st in
  match clients !! i with
  | Some c =>
      if test c then
        let c := client.with_priority (client.priority c + step) c in
        (<[i := c]> clients,
         exec (UPDATE_priority (client.priority c) (client.id c)) w)
      else (clients, w)
  | None => (clients, w)
  end.

Definition for_loop (test : client.t → bool) (step : Z)
    (clients : list client.t) (w : world) : list client.t * world :=
  foldl (for_step test step) (clients, w) (seq 0 (length clients)).

(** [clients[i].priority > oldPriority && clients[i].status === oldStatus] *)
Definition below_in (oldStatus : string) (oldPriority : Z) (c : client.t) : bool :=
  bool_decide (client.priority c > oldPriority)
  && bool_decide (client.status c = oldStatus).

(** [clients[i].priority >= priority && clients[i].status === status] *)
Definition at_or_below_in (status : string) (priority : Z) (c : client.t) : bool :=
  bool_decide (client.priority c >= priority)
  && bool_decide (client.status c = status).

(** The first loop of the status-only branch: the largest priority of
    the lane [status], starting from 0. *)
Definition maxPriority (clients : list client.t) (status : string) : Z :=
  foldl (λ maxPriority c,
           if bool_decide (client.priority c > maxPriority)
              && bool_decide (client.status c = status)
           then client.priority c else maxPriority)
        0 clients.

(** The body of [if ((statusHasChanged) && !priority) { .. }].
    [maxPriority clients status + 1] is the source's [maxPriority + 1]
    as long as the priorities of the lane are safe integers. *)
Definition status_only_branch (clients : list client.t) (client : client.t)
    (id : Z) (status : string) (w : world) : list client.t * world :=
  let oldStatus := client.status client in
  let oldPriority := client.priority client in
  let newPriority := maxPriority clients status + 1 in
  let w := exec (UPDATE_status_priority status newPriority id) w in
  let clients := all w in
  for_loop (below_in oldStatus oldPriority) (-1) clients w.

(** The body of [if ((statusHasChanged) && priority) { .. }]. [client]
    is the element of [clients] at index [k], so [client.status = status]
    writes into the array the first loop then reads. *)
Definition status_priority_branch (clients : list client.t) (k : nat)
    (client : client.t) (id : Z) (status : string) (priority : Z) (w : world)
    : list client.t * world :=
  let oldStatus := client.status client in
  let oldPriority := client.priority client in
  let clients := <[k := client.with_status status client]> clients in
  let '(clients, w) := for_loop (at_or_below_in status priority) 1 clients w in
  let w := exec (UPDATE_status_priority status priority id) w in
  let clients := all w in
  for_loop (below_in oldStatus oldPriority) (-1) clients w.

(** ** The handler *)

(** [clients.find(client => client.id === id)], with the index of the
    row found. *)
Definition target (clients : list client.t) (id : Z) : option (nat * client.t) :=
  list_find (λ c, client.id c = id) clients.

Inductive outcome : Type :=
| Sent (w : world)   (* 200 with the final [select * from clients] *)
| Rejected           (* [validateId] failed: 400 sent, no statement issued *)
| Diverged.          (* out of fuel *)

(** [app.put('/api/v1/clients/:id', ..)] on the table [db]. When no row
    has the id, [validateId] sends the 400 and the code that follows
    throws (on [client.status], [client.priority] or the second [send])
    before any statement is prepared. *)
Definition put_client (fuel : nat) (db : list client.t) (id : Z)
    (status : option string) (priority : option Z) : outcome :=
  let w := {| table := db; issued := [] |} in
  let clients := all w in
  match target clients id with
  | None => Rejected
  | Some (k, client) =>
      let statusHasChanged :=
        truthy_status status
        && bool_decide (status ≠ Some (client.status client)) in
      let priorityHasChanged :=
        truthy_priority priority
        && bool_decide (priority ≠ Some (client.priority client)) in
      let after_priority :=
        if priorityHasChanged
        then priority_branch fuel clients client status (default 0 priority) w
        else Some w in
      match after_priority with
      | None => Diverged
      | Some w =>
          let '(clients, w) :=
            if statusHasChanged && negb (truthy_priority priority)
            then status_only_branch clients client id (default "" status) w
            else (clients, w) in
          let '(clients, w) :=
            if statusHasChanged && truthy_priority priority
            then status_priority_branch clients k client id
                   (default "" status) (default 0 priority) w
            else (clients, w) in
          Sent {| table := all w; issued := issued w |}
      end
  end.

(** The body of the response. *)
Definition response (o : outcome) : option (list client.t) :=
  match o with
  | Sent w => Some (table w)
  | _ => None
  end.

(** ** The example of the specification *)

Definition A : client.t := client.make 1 "A" "backlog" 1.
Definition B : client.t := client.make 2 "B" "backlog" 2.
Definition C : client.t := client.make 3 "C" "backlog" 3.
Definition D : client.t := client.make 4 "D" "in-progress" 1.
Definition E : client.t := client.make 5 "E" "in-progress" 2.
Definition F : client.t := client.make 6 "F" "in-progress" 3.


(** ** Vocabulary of the specification *)

(** The clients of one status lane, in table order. *)
Definition lane (s : string) (db : list client.t) : list client.t :=
  filter (λ c, client.status c = s) db.

(** Invariant I1: in every lane the priorities are exactly 1..N. *)
Definition I1 (db : list client.t) : Prop :=
  ∀ s, client.priority <$> lane s db ≡ₚ Z.of_nat <$> seq 1 (length (lane s db)).

(** Identifiers are unique (the data model of the specification). *)
Definition unique_ids (db : list client.t) : Prop :=
  NoDup (client.id <$> db).

(** A sequence of statements run in order, on the store and on a row. *)
Definition exec_all (qs : list statement) (w : world) : world :=
  foldl (λ w q, exec q w) w qs.

Definition row_after (qs : list statement) (c : client.t) : client.t :=
  foldl (λ c q, update_row q c) c qs.

(** What a [for] loop does to a row it tests, and the statements it
    issues over an array. *)
Definition bump (test : client.t → bool) (step : Z) (c : client.t) : client.t :=
  if test c then client.with_priority (client.priority c + step) c else c.

Definition for_statements (test : client.t → bool) (step : Z)
    (clients : list client.t) : list statement :=
  clients ≫= λ c,
    if test c then [UPDATE_priority (client.priority c + step) (client.id c)]
    else [].

(** The client of lane [status] that [clients.find] returns for the slot
    [currentPriority]. *)
Definition occupant (clients : list client.t) (status : option string)
    (currentPriority : Z) : option (nat * client.t) :=
  list_find (λ c, client.priority c = currentPriority
                  ∧ Some (client.status c) = status) clients.

(** The statements of [n] iterations of a shift loop that starts at the
    slot [cur]: one per occupied slot, none for an empty one. *)
Fixpoint shift_statements (step : Z) (clients : list client.t)
    (status : option string) (cur : Z) (n : nat) : list statement :=
  match n with
  | O => []
  | S n =>
      match occupant clients status cur with
      | Some (_, m) => [UPDATE_priority (cur + step) (client.id m)]
      | None => []
      end ++ shift_statements step clients status (cur + step) n
  end.

(** The number of iterations a request needs from the shift loops. *)
Definition shift_iterations (oldPriority : Z) (priority : option Z) : nat :=
  if truthy_priority priority
  then Z.abs_nat (default 0 priority - oldPriority)
  else 0%nat.

(** The bottom of a lane in the words of the specification: one more
    than the largest priority of the lane, 1 for an empty lane. *)
Definition bottom_of_lane (L : string) (db : list client.t) : Z :=
  match client.priority <$> lane L db with
  | [] => 1
  | p :: ps => foldr Z.max p ps + 1
  end.

(** The table after a status-only move of the client [id] from the slot
    [O] of lane [S] to lane [L], in the words of the specification. *)
Definition status_only_result (db : list client.t) (id : Z)
    (S : string) (O : Z) (L : string) : list client.t :=
  (λ r, if bool_decide (client.id r = id)
        then client.with_status L (client.with_priority (bottom_of_lane L db) r)
        else if bool_decide (client.status r = S ∧ client.priority r > O)
        then client.with_priority (client.priority r - 1) r
        else r) <$> db.

(** Priorities are positive integers (the data model of the
    specification). *)
Definition positive_priorities (db : list client.t) : Prop :=
  Forall (λ c, 0 < client.priority c) db.

(** Two readings of I1 that the proofs use: every priority lies between
    1 and the size of its lane, and no two clients of a lane share one. *)
Definition ranked (db : list client.t) : Prop :=
  ∀ r, r ∈ db →
    1 ≤ client.priority r ≤ Z.of_nat (length (lane (client.status r) db)).

Definition unique_ranks (db : list client.t) : Prop :=
  ∀ r1 r2, r1 ∈ db → r2 ∈ db →
    client.status r1 = client.status r2 →
    client.priority r1 = client.priority r2 → r1 = r2.

(** A row after the move of the client [id] from the slot [O] to the
    slot [P] of its lane [S], in the words of the specification: the
    clients between the two slots move one step toward [O]. *)
Definition rotate_row (id : Z) (S : string) (O P : Z) (r : client.t) : client.t :=
  if bool_decide (client.id r = id) then client.with_priority P r
  else if bool_decide (client.status r = S ∧ P ≤ client.priority r < O)
  then client.with_priority (client.priority r + 1) r
  else if bool_decide (client.status r = S ∧ O < client.priority r ≤ P)
  then client.with_priority (client.priority r - 1) r
  else r.

(** A row after the move of the client [id] from the slot [O] of lane
    [S] to the slot [P] of lane [L], in the words of the specification:
    room is made at [P] in [L], and the gap at [O] in [S] is closed. *)
Definition insert_row (id : Z) (S : string) (O : Z) (L : string) (P : Z)
    (r : client.t) : client.t :=
  if bool_decide (client.id r = id)
  then client.with_status L (client.with_priority P r)
  else if bool_decide (client.status r = L ∧ P ≤ client.priority r)
  then client.with_priority (client.priority r + 1) r
  else if bool_decide (client.status r = S ∧ O < client.priority r)
  then client.with_priority (client.priority r - 1) r
  else r.

(** A row after the first half of that move: room made at [P] in [L]
    and the target placed there. *)
Definition make_room_row (id : Z) (L : string) (P : Z) (r : client.t) : client.t :=
  if bool_decide (client.id r = id)
  then client.with_status L (client.with_priority P r)
  else if bool_decide (client.status r = L ∧ P ≤ client.priority r)
  then client.with_priority (client.priority r + 1) r
  else r.

(** The four change cases of the specification, chosen by comparing the
    request with the target's current status and priority. *)
Inductive change_case : Type :=
| No_op
| Priority_only
| Status_only
| Status_and_priority.

Definition classify (client : client.t) (status : option string)
    (priority : option Z) : change_case :=
  let statusHasChanged :=
    truthy_status status
    && bool_decide (status ≠ Some (client.status client)) in
  let priorityHasChanged :=
    truthy_priority priority
    && bool_decide (priority ≠ Some (client.priority client)) in
  if statusHasChanged
  then if truthy_priority priority then Status_and_priority else Status_only
  else if priorityHasChanged then Priority_only else No_op.

(** The requests for which the handler keeps I1: those that change
    nothing, those that repeat the target's lane with a slot of that
    lane, those that name another lane without a usable priority, and
    those that name another lane [L] with a slot of [L] (or one past its
    bottom) that is no more than one below the target's old slot. *)
Inductive in_range (db : list client.t) (c : client.t)
  : option string → option Z → Prop :=
| range_no_change status priority :
    classify c status priority = No_op →
    in_range db c status priority
| range_same_lane P :
    1 ≤ P ≤ Z.of_nat (length (lane (client.status c) db)) →
    in_range db c (Some (client.status c)) (Some P)
| range_bottom L priority :
    L ≠ "" → L ≠ client.status c →
    truthy_priority priority = false →
    in_range db c (Some L) priority
| range_other_lane L P :
    L ≠ "" → L ≠ client.status c →
    1 ≤ P ≤ Z.of_nat (length (lane L db)) + 1 →
    P ≤ client.priority c + 1 →
    in_range db c (Some L) (Some P).

(** The reorder operation in the words of the specification: the
    adjustments of the selected case and no others. *)
Definition reorder_one_case (fuel : nat) (db : list client.t) (id : Z)
    (status : option string) (priority : option Z) : outcome :=
  let w := {| table := db; issued := [] |} in
  match target db id with
  | None => Rejected
  | Some (k, client) =>
      match classify client status priority with
      | No_op => Sent w
      | Priority_only =>
          match priority_branch fuel db client status (default 0 priority) w with
          | Some w => Sent w
          | None => Diverged
          end
      | Status_only =>
          Sent (status_only_branch db client id (default "" status) w).2
      | Status_and_priority =>
          Sent (status_priority_branch db k client id (default "" status)
                  (default 0 priority) w).2
      end
  end.

(** The statements of the status-and-priority branch: the push-down of
    the new lane read from the array in which the target already carries
    its new status, the move of the target, and the pull-up of the old
    lane read from the refreshed table. *)
Definition status_priority_statements (clients : list client.t) (k : nat)
    (client : client.t) (id : Z) (status : string) (priority : Z)
    (db : list client.t) : list statement :=
  let push :=
    for_statements (at_or_below_in status priority) 1
      (<[k := client.with_status status client]> clients) in
  let move := UPDATE_status_priority status priority id in
  (push ++ [move])
  ++ for_statements (below_in (client.status client) (client.priority client)) (-1)
       (row_after (push ++ [move]) <$> db).

(** The statements of a whole request, branch after branch. *)
Definition request_statements (db : list client.t) (k : nat) (client : client.t)
    (id : Z) (status : option string) (priority : option Z) : list statement :=
  let statusHasChanged :=
    truthy_status status
    && bool_decide (status ≠ Some (client.status client)) in
  let priorityHasChanged :=
    truthy_priority priority
    && bool_decide (priority ≠ Some (client.priority client)) in
  let qs1 :=
    if priorityHasChanged
    then shift_statements
           (if bool_decide (client.priority client > default 0 priority) then 1 else -1)
           db status (default 0 priority)
           (Z.abs_nat (default 0 priority - client.priority client))
         ++ [UPDATE_priority (default 0 priority) (client.id client)]
    else [] in
  let qs2 :=
    if statusHasChanged && negb (truthy_priority priority)
    then UPDATE_status_priority (default "" status)
           (maxPriority db (default "" status) + 1) id
         :: for_statements (below_in (client.status client) (client.priority client)) (-1)
              (run (UPDATE_status_priority (default "" status)
                      (maxPriority db (default "" status) + 1) id)
                   (row_after qs1 <$> db))
    else [] in
  let qs3 :=
    if statusHasChanged && truthy_priority priority
    then status_priority_statements db k client id (default "" status)
           (default 0 priority) (row_after (qs1 ++ qs2) <$> db)
    else [] in
  qs1 ++ qs2 ++ qs3.

(** ** The other routes and the validators *)

(** The object [validateId] and [validatePriority] return beside
    [valid], and the 400 routes send. *)
Record messageObj : Type := MessageObj {
  message : string;
  long_message : string;
}.

Inductive validation : Type :=
| valid
| invalid (messageObj : messageObj).

(** [db.prepare('select * from clients where id = ? limit 1').get(id)]:
    the first row the WHERE clause selects, if any. *)
Definition get_by_id (db : list client.t) (id : Z) : option client.t :=
  head (filter (λ c, client.id c = id) db).

(** [validateId(id)], for the result of [parseInt(req.params.id, 10)]:
    an integer, or [None] for NaN. *)
Definition validateId (db : list client.t) (id : option Z) : validation :=
  match id with
  | None =>
      invalid {| message := "Invalid id provided.";
                 long_message := "Id can only be integer." |}
  | Some id =>
      match get_by_id db id with
      | None =>
          invalid {| message := "Invalid id provided.";
                     long_message := "Cannot find client with that id." |}
      | Some _ => valid
      end
  end.

(** [validatePriority(priority)], for a number or NaN ([None]). *)
Definition validatePriority (priority : option Z) : validation :=
  match priority with
  | None =>
      invalid {| message := "Invalid priority provided.";
                 long_message := "Priority can only be positive integer." |}
  | Some _ => valid
  end.

(** What [res.status(code).send(body)] is called with. *)
Inductive body : Type :=
| Message (m : messageObj)
| Clients (rows : list client.t)
| Client (row : option client.t).

Record reply : Type := Reply {
  code : Z;
  sent : body;
}.

(** [app.get('/api/v1/clients', ..)], for [req.query.status] a string or
    absent. *)
Definition get_clients (db : list client.t) (status : option string) : reply :=
  if truthy_status status then
    let status := default "" status in
    if bool_decide (status ≠ "backlog")
       && bool_decide (status ≠ "in-progress")
       && bool_decide (status ≠ "complete")
    then
      {| code := 400;
         sent := Message
           {| message := "Invalid status provided.";
              long_message := "Status can only be one of the following: [backlog | in-progress | complete]." |} |}
    else
      {| code := 200; sent := Clients (filter (λ c, client.status c = status) db) |}
  else {| code := 200; sent := Clients db |}.

(** [app.get('/api/v1/clients/:id', ..)]: the calls of [send], in order.
    The branch for an invalid id has no [return], so the second call
    follows it. *)
Definition get_client (db : list client.t) (id : option Z) : list reply :=
  match validateId db id with
  | invalid messageObj => [{| code := 400; sent := Message messageObj |}]
  | valid => []
  end
  ++ [{| code := 200; sent := Client (id ≫= get_by_id db) |}].

(** ** Safe integers *)

(** The handler computes on JavaScript numbers. Its arithmetic on
    priorities ([currentPriority++], [currentPriority--],
    [maxPriority + 1], [priority += 1], [priority -= 1]) is modelled by
    the arithmetic of the integers, which is what the source computes as
    long as its operands are safe integers: those of absolute value
    below 2^53, for which adding or subtracting 1 is exact. Under I1
    every priority lies between 1 and the size of its lane; the theorems
    that do not assume I1 and depend on this arithmetic assume the bound
    below. *)
Definition safe_integer (z : Z) : Prop := - 2 ^ 53 < z < 2 ^ 53.

Definition safe_priorities (db : list client.t) : Prop :=
  Forall (λ c, safe_integer (client.priority c)) db.

(** The integers every one of which a double holds exactly; adding 1 to
    a safe integer, or subtracting 1 from it, stays among them. *)
Definition exact_integer (z : Z) : Prop := - 2 ^ 53 ≤ z ≤ 2 ^ 53.

(** The priority a statement writes. *)
Definition statement_priority (q : statement) : Z :=
  match q with
  | UPDATE_priority priority _ => priority
  | UPDATE_status_priority _ priority _ => priority
  end.

(** ** Vocabulary for what a request touches *)

(** The identifier in the WHERE clause of a statement. *)
Definition statement_id (q : statement) : Z :=
  match q with
  | UPDATE_priority _ id => id
  | UPDATE_status_priority _ _ id => id
  end.

(** A statement that writes no status. *)
Definition priority_statement (q : statement) : Prop :=
  match q with
  | UPDATE_priority _ _ => True
  | UPDATE_status_priority _ _ _ => False
  end.

(** A statement that writes no status, or writes it to the row [id]. *)
Definition status_only_of (id : Z) (q : statement) : Prop :=
  match q with
  | UPDATE_priority _ _ => True
  | UPDATE_status_priority _ _ i => i = id
  end.

(** The rows a request on the client [c] may write to: the client, the
    rows of its lane and the rows of the lane the request names. *)
Definition involved (db : list client.t) (c : client.t)
    (status : option string) (i : Z) : Prop :=
  ∃ m, m ∈ db ∧ client.id m = i
       ∧ (client.id m = client.id c
          ∨ client.status m = client.status c
          ∨ Some (client.status m) = status).

(** The status the target has after a request. *)
Definition final_status (c : client.t) (status : option string) : string :=
  if truthy_status status then default "" status else client.status c.

(** ** Proof steps *)

(** Splits the hypotheses that a row is not, in its lane, within a range
    of slots. *)
Ltac lane_negs :=
  repeat match goal with
         | H : ¬ (client.status _ = _ ∧ _) |- _ =>
             apply not_and_l in H; destruct H as [H|H]
         end.

(** * Properties *)

(** ** The examples of the specification *)

Example scenario_1 :
  response (put_client 2 [A; B; C] 1 (Some "backlog") (Some 3))
  = Some [client.with_priority 3 A; client.with_priority 1 B; client.with_priority 2 C].
Proof. vm_compute. reflexivity. Qed.

Example scenario_2 :
  response (put_client 0 [A; B; C] 3 (Some "in-progress") None)
  = Some [A; B; client.make 3 "C" "in-progress" 1].
Proof. vm_compute. reflexivity. Qed.

Example scenario_3 :
  response (put_client 0 [A; B; C; D] 1 (Some "in-progress") None)
  = Some [client.make 1 "A" "in-progress" 2; client.with_priority 1 B;
          client.with_priority 2 C; D].
Proof. vm_compute. reflexivity. Qed.

Example scenario_4 :
  put_client 0 [A; B; C] 1 (Some "backlog") (Some 1)
  = Sent {| table := [A; B; C]; issued := [] |}.
Proof. vm_compute. reflexivity. Qed.

(** ** Statements act row by row *)

Lemma update_row_id q c : client.id (update_row q c) = client.id c.
Proof. destruct q; simpl; case_bool_decide; reflexivity. Qed.

Lemma update_row_extra q c : client.extra (update_row q c) = client.extra c.
Proof. destruct q; simpl; case_bool_decide; reflexivity. Qed.

Lemma row_after_cons q qs c :
  row_after (q :: qs) c = row_after qs (update_row q c).
Proof. reflexivity. Qed.

Lemma row_after_one q c : row_after [q] c = update_row q c.
Proof. reflexivity. Qed.

Lemma row_after_nil c : row_after [] c = c.
Proof. reflexivity. Qed.

Lemma exec_all_cons q qs w : exec_all (q :: qs) w = exec_all qs (exec q w).
Proof. reflexivity. Qed.

Lemma row_after_id qs c : client.id (row_after qs c) = client.id c.
Proof.
  revert c. induction qs as [|q qs IH]; intros c; [done|].
  rewrite row_after_cons, IH. apply update_row_id.
Qed.

Lemma row_after_extra qs c : client.extra (row_after qs c) = client.extra c.
Proof.
  revert c. induction qs as [|q qs IH]; intros c; [done|].
  rewrite row_after_cons, IH. apply update_row_extra.
Qed.

Lemma row_after_app qs1 qs2 c :
  row_after (qs1 ++ qs2) c = row_after qs2 (row_after qs1 c).
Proof. apply foldl_app. Qed.

Lemma exec_all_app qs1 qs2 w :
  exec_all (qs1 ++ qs2) w = exec_all qs2 (exec_all qs1 w).
Proof. apply foldl_app. Qed.

Lemma exec_all_snoc qs q w : exec q (exec_all qs w) = exec_all (qs ++ [q]) w.
Proof. by rewrite exec_all_app. Qed.

Lemma table_exec_all qs w : table (exec_all qs w) = row_after qs <$> table w.
Proof.
  revert w. induction qs as [|q qs IH]; intros w.
  - simpl. by rewrite list_fmap_id.
  - rewrite exec_all_cons, IH. simpl. unfold run.
    by rewrite <- list_fmap_compose.
Qed.

Lemma issued_exec_all qs w : issued (exec_all qs w) = issued w ++ qs.
Proof.
  revert w. induction qs as [|q qs IH]; intros w.
  - simpl. by rewrite app_nil_r.
  - rewrite exec_all_cons, IH. simpl. by rewrite <- app_assoc.
Qed.

Lemma exec_all_world qs db :
  exec_all qs {| table := db; issued := [] |}
  = {| table := row_after qs <$> db; issued := qs |}.
Proof.
  pose proof (table_exec_all qs {| table := db; issued := [] |}) as Ht.
  pose proof (issued_exec_all qs {| table := db; issued := [] |}) as Hi.
  destruct (exec_all _ _); simpl in *. by subst.
Qed.

(** ** The shift loops *)

Lemma shift_loop_unfold step fuel clients status cur old w :
  shift_loop step fuel clients status cur old w
  = if bool_decide (cur = old) then Some (0%nat, w)
    else match fuel with
         | O => None
         | S fuel =>
             let w' := match occupant clients status cur with
                       | Some (_, m) =>
                           exec (UPDATE_priority (cur + step) (client.id m)) w
                       | None => w
                       end in
             match shift_loop step fuel clients status (cur + step) old w' with
             | Some (n, w) => Some (S n, w)
             | None => None
             end
         end.
Proof. destruct fuel; reflexivity. Qed.

(** A loop that is [n] steps away from [oldPriority] performs [n]
    iterations when it has the fuel for them, and issues the statements
    of the occupied slots it passes. *)
Lemma shift_loop_steps step clients status n :
  step ≠ 0 →
  ∀ fuel cur w,
    shift_loop step fuel clients status cur (cur + step * Z.of_nat n) w
    = if decide (n ≤ fuel)%nat
      then Some (n, exec_all (shift_statements step clients status cur n) w)
      else None.
Proof.
  intros Hstep. induction n as [|n IH]; intros fuel cur w.
  - rewrite shift_loop_unfold, bool_decide_eq_true_2 by lia.
    rewrite decide_True by lia. done.
  - rewrite shift_loop_unfold, bool_decide_eq_false_2 by nia.
    destruct fuel as [|fuel].
    { rewrite decide_False by lia. done. }
    cbv zeta.
    replace (cur + step * Z.of_nat (S n)) with (cur + step + step * Z.of_nat n) by lia.
    rewrite IH. simpl shift_statements. rewrite exec_all_app.
    destruct (decide (n ≤ fuel)%nat).
    + rewrite decide_True by lia. by destruct (occupant clients status cur) as [[? ?]|].
    + rewrite decide_False by lia. done.
Qed.

(** The loop the [priorityHasChanged] branch selects, from any two
    integers. *)
Lemma shift_loop_selected clients status priority oldPriority fuel w :
  let step := if bool_decide (oldPriority > priority) then 1 else -1 in
  let n := Z.abs_nat (priority - oldPriority) in
  shift_loop step fuel clients status priority oldPriority w
  = if decide (n ≤ fuel)%nat
    then Some (n, exec_all (shift_statements step clients status priority n) w)
    else None.
Proof.
  intros step n.
  assert (step ≠ 0) as Hstep by (unfold step; case_bool_decide; lia).
  rewrite <- (shift_loop_steps step clients status n Hstep fuel priority w).
  f_equal. unfold step, n. case_bool_decide; lia.
Qed.

Lemma priority_branch_spec fuel clients client status priority w :
  (Z.abs_nat (priority - client.priority client) ≤ fuel)%nat →
  priority_branch fuel clients client status priority w
  = Some (exec_all
            (shift_statements
               (if bool_decide (client.priority client > priority) then 1 else -1)
               clients status priority
               (Z.abs_nat (priority - client.priority client))
             ++ [UPDATE_priority priority (client.id client)]) w).
Proof.
  intros Hfuel. unfold priority_branch. cbv zeta.
  rewrite shift_loop_selected, decide_True by done.
  by rewrite exec_all_app.
Qed.

(** With an absent [status] no slot has an occupant. *)
Lemma occupant_no_status clients cur : occupant clients None cur = None.
Proof.
  unfold occupant. apply list_find_None, Forall_forall.
  intros c _ [_ ?]. done.
Qed.

Lemma shift_statements_no_status step clients cur n :
  shift_statements step clients None cur n = [].
Proof.
  revert cur. induction n as [|n IH]; intros cur; simpl; [done|].
  by rewrite occupant_no_status, IH.
Qed.

(** ** The [for] loops *)

Lemma foldl_head {X Y : Type} (f : X → Y → X) (a : X) (y : Y) (l : list Y) :
  foldl f a (y :: l) = foldl f (f a y) l.
Proof. reflexivity. Qed.

Lemma for_statements_cons test step c l :
  for_statements test step (c :: l)
  = (if test c then [UPDATE_priority (client.priority c + step) (client.id c)]
     else []) ++ for_statements test step l.
Proof. reflexivity. Qed.

Lemma for_loop_from test step done_ todo w :
  foldl (for_step test step) (done_ ++ todo, w)
        (seq (length done_) (length todo))
  = (done_ ++ (bump test step <$> todo),
     exec_all (for_statements test step todo) w).
Proof.
  revert done_ w. induction todo as [|c todo IH]; intros done_ w; [done|].
  rewrite for_statements_cons, exec_all_app, fmap_cons.
  assert (for_step test step (done_ ++ c :: todo, w) (length done_)
          = (done_ ++ bump test step c :: todo,
             exec_all (if test c
                       then [UPDATE_priority (client.priority c + step) (client.id c)]
                       else []) w)) as Hstep.
  { unfold for_step, bump. rewrite lookup_app_r by lia.
    rewrite Nat.sub_diag. simpl. destruct (test c); [|done].
    rewrite insert_app_r_alt by lia. rewrite Nat.sub_diag. done. }
  change (seq (length done_) (length (c :: todo)))
    with (length done_ :: seq (S (length done_)) (length todo)).
  rewrite foldl_head, Hstep.
  replace (done_ ++ bump test step c :: todo)
    with ((done_ ++ [bump test step c]) ++ todo) by (by rewrite <- app_assoc).
  replace (S (length done_)) with (length (done_ ++ [bump test step c]))
    by (rewrite length_app; simpl; lia).
  rewrite IH, <- app_assoc. done.
Qed.


Lemma for_loop_spec test step clients w :
  for_loop test step clients w
  = (bump test step <$> clients, exec_all (for_statements test step clients) w).
Proof. apply (for_loop_from test step [] clients w). Qed.

Lemma update_row_other p c r :
  client.id c ≠ client.id r →
  update_row (UPDATE_priority p (client.id c)) r = r.
Proof. intros Hne. simpl. by rewrite bool_decide_eq_false_2. Qed.

(** Statements a [for] loop issues for rows with other identifiers leave
    a row alone. *)
Lemma row_after_for_other test step l r :
  (∀ c, c ∈ l → test c = true → client.id c ≠ client.id r) →
  row_after (for_statements test step l) r = r.
Proof.
  induction l as [|c l IH]; intros Hl; [done|].
  rewrite for_statements_cons, row_after_app.
  assert (row_after
            (if test c
             then [UPDATE_priority (client.priority c + step) (client.id c)]
             else []) r = r) as ->.
  { destruct (test c) eqn:Htest; [|done].
    rewrite row_after_one. apply update_row_other, Hl; [by left|done]. }
  apply IH. intros c' Hc'. apply Hl. by right.
Qed.

(** Over an array with unique identifiers, a row of the store receives
    the statement of the array element with its identifier and no
    other; the value written is the one read from the array. *)
Lemma row_after_for_at test step l r x :
  NoDup (client.id <$> l) → r ∈ l → client.id x = client.id r →
  row_after (for_statements test step l) x
  = if test r then client.with_priority (client.priority r + step) x else x.
Proof.
  revert x. induction l as [|c l IH]; intros x Hnd Hr Hx; [by apply elem_of_nil in Hr|].
  rewrite fmap_cons in Hnd. apply NoDup_cons in Hnd as [Hc Hnd].
  rewrite for_statements_cons, row_after_app.
  apply elem_of_cons in Hr as [->|Hr].
  - assert (∀ y, client.id y = client.id c →
                 row_after (for_statements test step l) y = y) as Hrest.
    { intros y Hy. apply row_after_for_other. intros c' Hc' _ Heq.
      apply Hc. rewrite <- Hy, <- Heq. by apply list_elem_of_fmap_2. }
    destruct (test c) eqn:Htest.
    + rewrite row_after_one. simpl update_row.
      rewrite bool_decide_eq_true_2 by done. by apply Hrest.
    + rewrite row_after_nil. by apply Hrest.
  - assert (client.id c ≠ client.id x) as Hne.
    { intros Heq. apply Hc. rewrite Heq, Hx. by apply list_elem_of_fmap_2. }
    destruct (test c) eqn:Htest.
    + rewrite row_after_one, update_row_other by done. by apply IH.
    + rewrite row_after_nil. by apply IH.
Qed.

Lemma row_after_for_own test step l r :
  NoDup (client.id <$> l) → r ∈ l →
  row_after (for_statements test step l) r = bump test step r.
Proof. intros Hnd Hr. by apply row_after_for_at. Qed.

Lemma table_for_unique test step db qs :
  unique_ids db →
  table (exec_all (for_statements test step db) {| table := db; issued := qs |})
  = bump test step <$> db.
Proof.
  intros Hnd. rewrite table_exec_all. simpl.
  apply list_fmap_ext. intros i r Hr.
  apply row_after_for_own; [done|]. by eapply list_elem_of_lookup_2.
Qed.

(** ** The branches of the handler as statement sequences *)

Lemma target_Some db id k c :
  target db id = Some (k, c) → db !! k = Some c ∧ client.id c = id.
Proof. intros H. apply list_find_Some in H as (? & ? & _). done. Qed.

Lemma world_eta w : {| table := all w; issued := issued w |} = w.
Proof. by destruct w. Qed.

Lemma status_only_branch_spec clients client id status w :
  (status_only_branch clients client id status w).2
  = exec_all
      (UPDATE_status_priority status (maxPriority clients status + 1) id
       :: for_statements (below_in (client.status client) (client.priority client)) (-1)
            (run (UPDATE_status_priority status (maxPriority clients status + 1) id)
                 (table w)))
      w.
Proof. unfold status_only_branch. cbv zeta. by rewrite for_loop_spec. Qed.

Lemma status_priority_branch_spec clients k client id status priority w :
  (status_priority_branch clients k client id status priority w).2
  = exec_all
      (status_priority_statements clients k client id status priority (table w)) w.
Proof.
  unfold status_priority_branch, status_priority_statements. cbv zeta.
  rewrite for_loop_spec, for_loop_spec. simpl.
  rewrite exec_all_snoc. unfold all.
  match goal with
  | |- context [run ?q (table ?W)] =>
      change (run q (table W)) with (table (exec q W))
  end.
  rewrite exec_all_snoc, table_exec_all.
  by rewrite (exec_all_app (_ ++ [_])).
Qed.

(** With the fuel its shift loop needs, the handler answers, and what it
    did to the store is the run of [request_statements]. *)
Lemma put_client_statements fuel db id status priority k c :
  target db id = Some (k, c) →
  (shift_iterations (client.priority c) priority ≤ fuel)%nat →
  put_client fuel db id status priority
  = Sent (exec_all (request_statements db k c id status priority)
            {| table := db; issued := [] |}).
Proof.
  intros Ht Hfuel. unfold put_client, request_statements, all. simpl table.
  rewrite Ht. cbv zeta.
  set (sc := truthy_status status && bool_decide (status ≠ Some (client.status c))).
  set (pc := truthy_priority priority && bool_decide (priority ≠ Some (client.priority c))).
  set (w0 := {| table := db; issued := [] |}).
  assert (∃ qs1, (if pc
                  then priority_branch fuel db c status (default 0 priority) w0
                  else Some w0) = Some (exec_all qs1 w0)
                 ∧ qs1 = (if pc
                          then shift_statements
                                 (if bool_decide (client.priority c > default 0 priority)
                                  then 1 else -1)
                                 db status (default 0 priority)
                                 (Z.abs_nat (default 0 priority - client.priority c))
                               ++ [UPDATE_priority (default 0 priority) (client.id c)]
                          else [])) as (qs1 & -> & Hqs1).
  { eexists; split; [|reflexivity]. destruct pc eqn:Hpc; [|done].
    apply priority_branch_spec.
    unfold pc in Hpc. unfold shift_iterations in Hfuel.
    destruct (truthy_priority priority); [exact Hfuel|done]. }
  rewrite <- Hqs1.
  destruct (sc && negb (truthy_priority priority)) eqn:H2;
    destruct (sc && truthy_priority priority) eqn:H3.
  - destruct sc, (truthy_priority priority); done.
  - destruct (status_only_branch _ _ _ _ _) as [cl w1] eqn:Hb.
    apply (f_equal snd) in Hb. rewrite status_only_branch_spec in Hb.
    cbn [snd] in Hb. subst w1. rewrite world_eta, <- exec_all_app, app_nil_r.
    by rewrite table_exec_all.
  - destruct (status_priority_branch _ _ _ _ _ _ _) as [cl w1] eqn:Hb.
    apply (f_equal snd) in Hb. rewrite status_priority_branch_spec in Hb.
    cbn [snd] in Hb. subst w1. rewrite world_eta, <- exec_all_app, !app_nil_r.
    by rewrite table_exec_all.
  - rewrite world_eta, !app_nil_r. done.
Qed.

Lemma put_client_table fuel db id status priority k c :
  target db id = Some (k, c) →
  (shift_iterations (client.priority c) priority ≤ fuel)%nat →
  put_client fuel db id status priority
  = Sent {| table := row_after (request_statements db k c id status priority) <$> db;
            issued := request_statements db k c id status priority |}.
Proof.
  intros Ht Hfuel. rewrite (put_client_statements _ _ _ _ _ k c) by done.
  by rewrite exec_all_world.
Qed.

(** ** The bottom of a lane *)

Lemma foldr_max_init a b l :
  foldr Z.max (Z.max a b) l = Z.max b (foldr Z.max a l).
Proof. induction l as [|x l IH]; simpl; [lia|]. rewrite IH. lia. Qed.

Lemma maxPriority_from m clients L :
  foldl (λ maxPriority c,
           if bool_decide (client.priority c > maxPriority)
              && bool_decide (client.status c = L)
           then client.priority c else maxPriority) m clients
  = foldr Z.max m (client.priority <$> lane L clients).
Proof.
  revert m. induction clients as [|c clients IH]; intros m; [done|].
  rewrite foldl_head, IH. unfold lane. rewrite filter_cons.
  destruct (decide (client.status c = L)) as [Hs|Hs].
  - rewrite (bool_decide_eq_true_2 _ Hs), andb_true_r, fmap_cons. simpl foldr.
    rewrite <- foldr_max_init. f_equal. case_bool_decide; lia.
  - rewrite (bool_decide_eq_false_2 _ Hs), andb_false_r. done.
Qed.

(** Over positive priorities the [maxPriority] loop computes the bottom
    of the lane as the specification words it. *)
Lemma maxPriority_bottom db L :
  positive_priorities db → maxPriority db L + 1 = bottom_of_lane L db.
Proof.
  intros Hpos. unfold maxPriority, bottom_of_lane. rewrite maxPriority_from.
  assert (Forall (λ p, 0 < p) (client.priority <$> lane L db)) as Hl.
  { apply Forall_fmap, Forall_forall. intros c Hc.
    apply list_elem_of_filter in Hc as [_ Hc].
    unfold positive_priorities in Hpos. rewrite Forall_forall in Hpos.
    by apply Hpos. }
  destruct (client.priority <$> lane L db) as [|p ps]; [done|].
  apply Forall_cons in Hl as [Hp _]. simpl.
  rewrite <- (foldr_max_init 0 p). f_equal. f_equal. lia.
Qed.

(** The [maxPriority] loop ends at or above every priority of the lane,
    and at or above 0. *)
Lemma maxPriority_ge db L r :
  r ∈ db → client.status r = L → client.priority r ≤ maxPriority db L.
Proof.
  intros Hr Hs. unfold maxPriority. rewrite maxPriority_from.
  assert (client.priority r ∈ client.priority <$> lane L db) as Hp.
  { apply list_elem_of_fmap_2. unfold lane. by rewrite list_elem_of_filter. }
  revert Hp. generalize (client.priority <$> lane L db). intros ps Hp.
  induction ps as [|p ps IH]; [by apply elem_of_nil in Hp|].
  simpl. apply elem_of_cons in Hp as [->|Hp]; [lia|].
  specialize (IH Hp). lia.
Qed.

Lemma maxPriority_nonneg db L : 0 ≤ maxPriority db L.
Proof.
  unfold maxPriority. rewrite maxPriority_from.
  generalize (client.priority <$> lane L db). intros ps.
  induction ps as [|p ps IH]; simpl; lia.
Qed.

(** ** Status-only moves *)

Lemma unique_ids_run q db : unique_ids db → unique_ids (run q db).
Proof.
  unfold unique_ids, run. intros H. rewrite <- list_fmap_compose.
  erewrite list_fmap_ext; [exact H|]. intros i r _. apply update_row_id.
Qed.

Lemma truthy_status_Some L : L ≠ "" → truthy_status (Some L) = true.
Proof.
  intros HL. simpl. destruct (String.eqb_spec L ""); [done|done].
Qed.

Lemma request_statements_status_only db k c id L priority :
  L ≠ "" → L ≠ client.status c →
  truthy_priority priority = false →
  request_statements db k c id (Some L) priority
  = UPDATE_status_priority L (maxPriority db L + 1) id
    :: for_statements (below_in (client.status c) (client.priority c)) (-1)
         (run (UPDATE_status_priority L (maxPriority db L + 1) id) db).
Proof.
  intros HL HS Hp. unfold request_statements. cbv zeta.
  rewrite Hp, (truthy_status_Some L HL), andb_false_l, andb_false_r. simpl default.
  rewrite bool_decide_eq_true_2 by congruence. simpl andb. cbv iota.
  rewrite app_nil_l, app_nil_r. by rewrite list_fmap_id.
Qed.

(** Whatever the identifiers of the other rows, the target ends in the
    new lane, one past the largest priority found there. *)
Lemma status_only_target_row fuel db id k c L priority :
  target db id = Some (k, c) →
  L ≠ "" → L ≠ client.status c →
  truthy_priority priority = false →
  ∃ w, put_client fuel db id (Some L) priority = Sent w
     ∧ table w !! k
       = Some (client.with_status L
                 (client.with_priority (maxPriority db L + 1) c)).
Proof.
  intros Ht HL HS Hp. destruct (target_Some _ _ _ _ Ht) as [Hk Hid].
  rewrite (put_client_table _ _ _ _ _ k c Ht)
    by (unfold shift_iterations; rewrite Hp; lia).
  eexists. split; [reflexivity|]. simpl table.
  rewrite request_statements_status_only by done.
  rewrite list_lookup_fmap, Hk. simpl. f_equal.
  rewrite (bool_decide_eq_true_2 _ Hid).
  apply row_after_for_other.
  intros c' Hc' Htest Heq. simpl in Heq.
  apply list_elem_of_fmap in Hc' as (r & -> & Hr).
  rewrite update_row_id in Heq. unfold below_in in Htest. simpl in Htest.
  rewrite (bool_decide_eq_true_2 (client.id r = id)) in Htest by congruence.
  simpl in Htest.
  apply andb_true_iff in Htest as [_ Hs]. apply bool_decide_eq_true in Hs.
  congruence.
Qed.

(** A request with a new lane [L] and no usable priority: the one
    statement that moves the target, then the pull-up of the old lane. *)
Lemma status_only_request fuel db id k c L priority :
  unique_ids db →
  target db id = Some (k, c) →
  L ≠ "" → L ≠ client.status c →
  truthy_priority priority = false →
  ∃ qs, put_client fuel db id (Some L) priority
        = Sent {| table :=
                    (λ r, if bool_decide (client.id r = id)
                          then client.with_status L
                                 (client.with_priority (maxPriority db L + 1) r)
                          else if bool_decide (client.status r = client.status c
                                               ∧ client.priority r > client.priority c)
                          then client.with_priority (client.priority r - 1) r
                          else r) <$> db;
                  issued := qs |}.
Proof.
  intros Hnd Ht HL HS Hp.
  rewrite (put_client_table _ _ _ _ _ k c Ht)
    by (unfold shift_iterations; rewrite Hp; lia).
  eexists. f_equal. f_equal.
  rewrite request_statements_status_only by done.
  set (q0 := UPDATE_status_priority L (maxPriority db L + 1) id).
  pose proof (table_for_unique (below_in (client.status c) (client.priority c)) (-1)
                (run q0 db) [] (unique_ids_run q0 db Hnd)) as Hfor.
  rewrite table_exec_all in Hfor. simpl in Hfor.
  transitivity (row_after
                  (for_statements (below_in (client.status c) (client.priority c)) (-1)
                     (run q0 db)) <$> run q0 db).
  { unfold run. rewrite <- list_fmap_compose. done. }
  rewrite Hfor. unfold run. rewrite <- list_fmap_compose.
  apply list_fmap_ext. intros i r Hr. simpl.
  unfold bump, below_in.
  destruct (decide (client.id r = id)) as [Hid|Hid].
  - rewrite !(bool_decide_eq_true_2 _ Hid). simpl.
    rewrite (bool_decide_eq_false_2 (L = _)) by done.
    by rewrite andb_false_r.
  - rewrite !(bool_decide_eq_false_2 _ Hid).
    destruct (decide (client.priority r > client.priority c)) as [H1|H1];
      destruct (decide (client.status r = client.status c)) as [H2|H2].
    + rewrite (bool_decide_eq_true_2 _ H1), (bool_decide_eq_true_2 _ H2).
      rewrite bool_decide_eq_true_2 by done. done.
    + rewrite (bool_decide_eq_false_2 _ H2), andb_false_r.
      rewrite bool_decide_eq_false_2 by tauto. done.
    + rewrite (bool_decide_eq_false_2 _ H1), andb_false_l.
      rewrite bool_decide_eq_false_2 by tauto. done.
    + rewrite (bool_decide_eq_false_2 _ H1), andb_false_l.
      rewrite bool_decide_eq_false_2 by tauto. done.
Qed.

(** ** Requests that change nothing *)

Lemma put_client_no_op fuel db id status priority k c :
  target db id = Some (k, c) →
  classify c status priority = No_op →
  put_client fuel db id status priority = Sent {| table := db; issued := [] |}.
Proof.
  intros Ht Hcl. unfold put_client, all. simpl table. rewrite Ht. cbv zeta.
  unfold classify in Hcl. cbv zeta in Hcl.
  destruct (truthy_status status && _) eqn:Hsc.
  { by destruct (truthy_priority priority). }
  destruct (truthy_priority priority && _) eqn:Hpc; [done|].
  reflexivity.
Qed.

Lemma classify_same c :
  classify c (Some (client.status c)) (Some (client.priority c)) = No_op.
Proof.
  unfold classify. cbv zeta.
  rewrite !(bool_decide_eq_false_2 (Some _ ≠ Some _)) by (intros H; by apply H).
  by rewrite !andb_false_r.
Qed.

(** ** The no-op request *)

(** C6 (P3, idempotent no-op): a request that repeats the target's
    current status and priority issues no statement, and the snapshot
    returned is the input table. *)
Theorem noop_request fuel db id k c :
  target db id = Some (k, c) →
  put_client fuel db id (Some (client.status c)) (Some (client.priority c))
  = Sent {| table := db; issued := [] |}.
Proof.
  intros Ht. apply (put_client_no_op _ _ _ _ _ k c Ht), classify_same.
Qed.

Lemma noop_request_witness :
  target [A; B; C] 1 = Some (0%nat, A)
  ∧ put_client 0 [A; B; C] 1 (Some (client.status A)) (Some (client.priority A))
    = Sent {| table := [A; B; C]; issued := [] |}.
Proof.
  split; [reflexivity|].
  apply (noop_request 0 [A; B; C] 1 0%nat A). reflexivity.
Defined.

(** ** Identifiers *)

(** C7 (P2, bijection preserved): a reorder call on an existing client
    answers with a table that has the same identifiers, row by row, and
    in which every row kept its identifier and the columns other than
    status and priority. *)
Theorem identifiers_preserved fuel db id status priority k c :
  target db id = Some (k, c) →
  (shift_iterations (client.priority c) priority ≤ fuel)%nat →
  ∃ w, put_client fuel db id status priority = Sent w
     ∧ client.id <$> table w = client.id <$> db
     ∧ Forall2 (λ r r', client.id r' = client.id r
                        ∧ client.extra r' = client.extra r) db (table w).
Proof.
  intros Ht Hfuel. eexists. split; [by apply (put_client_table _ _ _ _ _ k c)|].
  simpl. split.
  - rewrite <- list_fmap_compose. apply list_fmap_ext.
    intros i r _. apply row_after_id.
  - apply Forall2_fmap_r, Forall_Forall2_diag, Forall_forall.
    intros r _. split; [apply row_after_id|apply row_after_extra].
Qed.

Lemma identifiers_preserved_witness :
  ∃ w, put_client 2 [A; B; C; D; E; F] 1 (Some "in-progress") (Some 3) = Sent w
     ∧ client.id <$> table w = client.id <$> [A; B; C; D; E; F]
     ∧ Forall2 (λ r r', client.id r' = client.id r
                        ∧ client.extra r' = client.extra r)
               [A; B; C; D; E; F] (table w).
Proof.
  apply (identifiers_preserved 2 [A; B; C; D; E; F] 1 (Some "in-progress")
           (Some 3) 0%nat A); [reflexivity|vm_compute; lia].
Defined.

(** ** The shift loop *)



(** ** A new priority without a status *)

(** C10: a request with a new priority P and no status field, P and
    the target's priority being safe integers, finds no occupant in any
    slot, so the one statement issued sets the target's priority to P
    and every other row is as it was. *)
Theorem priority_without_status fuel db id k c P :
  target db id = Some (k, c) →
  safe_integer P → safe_integer (client.priority c) →
  P ≠ 0 → P ≠ client.priority c →
  (Z.abs_nat (P - client.priority c) ≤ fuel)%nat →
  put_client fuel db id None (Some P)
  = Sent {| table := (λ r, if bool_decide (client.id r = id)
                           then client.with_priority P r else r) <$> db;
            issued := [UPDATE_priority P id] |}.
Proof.
  intros Ht _ _ HP HO Hfuel. pose proof (target_Some _ _ _ _ Ht) as [_ Hid].
  assert (truthy_priority (Some P) = true) as Htr.
  { simpl. by destruct (Z.eqb_spec P 0). }
  rewrite (put_client_table _ _ _ _ _ k c Ht)
    by (unfold shift_iterations; rewrite Htr; exact Hfuel).
  unfold request_statements. cbv zeta. rewrite Htr.
  rewrite bool_decide_eq_true_2 by congruence.
  simpl. rewrite shift_statements_no_status, Hid. simpl. done.
Qed.

Lemma priority_without_status_witness :
  put_client 2 [A; B; C] 1 None (Some 3)
  = Sent {| table := (λ r, if bool_decide (client.id r = 1)
                           then client.with_priority 3 r else r) <$> [A; B; C];
            issued := [UPDATE_priority 3 1] |}.
Proof.
  apply (priority_without_status 2 [A; B; C] 1 0%nat A 3);
    [reflexivity|compute_done|compute_done|lia|vm_compute; lia|vm_compute; lia].
Defined.

(** ** A new status without a usable priority *)

(** C4: on a table whose priorities are positive safe integers, a
    status-only move of the target from lane S to lane L puts it at the
    bottom of L (one more than the largest priority of L, 1 when L is
    empty) with status L, lowers by one every client of S that was below
    the target's old slot, and leaves every other client as it was. *)
Theorem status_only_move fuel db id k c L :
  unique_ids db → positive_priorities db → safe_priorities db →
  target db id = Some (k, c) →
  L ≠ "" → L ≠ client.status c →
  ∃ qs, put_client fuel db id (Some L) None
        = Sent {| table := status_only_result db id (client.status c)
                             (client.priority c) L;
                  issued := qs |}.
Proof.
  intros Hnd Hpos _ Ht HL HS.
  destruct (status_only_request fuel db id k c L None Hnd Ht HL HS eq_refl)
    as [qs Hqs].
  exists qs. rewrite Hqs. unfold status_only_result.
  by rewrite (maxPriority_bottom db L Hpos).
Qed.

Lemma status_only_move_witness :
  ∃ qs, put_client 0 [A; B; C; D] 1 (Some "in-progress") None
        = Sent {| table := status_only_result [A; B; C; D] 1 (client.status A)
                             (client.priority A) "in-progress";
                  issued := qs |}.
Proof.
  apply (status_only_move 0 [A; B; C; D] 1 0%nat A "in-progress").
  - unfold unique_ids. compute_done.
  - unfold positive_priorities. compute_done.
  - unfold safe_priorities. compute_done.
  - reflexivity.
  - discriminate.
  - discriminate.
Defined.

(** C9: on a table whose priorities are positive safe integers, a
    request with a new status and priority 0 is handled as the same
    request without a priority: the handler answers, and the target is
    at the bottom of the new lane, one more than the largest priority of
    that lane (1 when it is empty) and so below every client already
    there, not at rank 0. *)
Theorem zero_priority_is_no_priority fuel db id k c L :
  positive_priorities db → safe_priorities db →
  target db id = Some (k, c) →
  L ≠ "" → L ≠ client.status c →
  put_client fuel db id (Some L) (Some 0) = put_client fuel db id (Some L) None
  ∧ ∃ w, put_client fuel db id (Some L) (Some 0) = Sent w
       ∧ table w !! k
         = Some (client.with_status L
                   (client.with_priority (bottom_of_lane L db) c))
       ∧ 0 < bottom_of_lane L db
       ∧ ∀ r, r ∈ db → client.status r = L →
           client.priority r < bottom_of_lane L db.
Proof.
  intros Hpos _ Ht HL HS. split.
  - unfold put_client. by destruct (target _ _) as [[? ?]|].
  - destruct (status_only_target_row fuel db id k c L (Some 0) Ht HL HS eq_refl)
      as (w & Hw & Hrow).
    exists w. split; [done|].
    rewrite <- (maxPriority_bottom db L Hpos). split; [done|]. split.
    + pose proof (maxPriority_nonneg db L). lia.
    + intros r Hr Hs. pose proof (maxPriority_ge db L r Hr Hs). lia.
Qed.

Lemma zero_priority_is_no_priority_witness :
  put_client 0 [A; B; C; D] 1 (Some "in-progress") (Some 0)
  = put_client 0 [A; B; C; D] 1 (Some "in-progress") None
  ∧ ∃ w, put_client 0 [A; B; C; D] 1 (Some "in-progress") (Some 0) = Sent w
       ∧ table w !! 0%nat
         = Some (client.with_status "in-progress"
                   (client.with_priority (bottom_of_lane "in-progress" [A; B; C; D]) A))
       ∧ 0 < bottom_of_lane "in-progress" [A; B; C; D]
       ∧ ∀ r, r ∈ [A; B; C; D] → client.status r = "in-progress" →
           client.priority r < bottom_of_lane "in-progress" [A; B; C; D].
Proof.
  apply (zero_priority_is_no_priority 0 [A; B; C; D] 1 0%nat A "in-progress").
  - unfold positive_priorities. compute_done.
  - unfold safe_priorities. compute_done.
  - reflexivity.
  - discriminate.
  - discriminate.
Defined.

(** ** Invariant I1, read as ranks *)

Lemma NoDup_fmap_eq {X Y : Type} (f : X → Y) (l : list X) (x y : X) :
  NoDup (f <$> l) → x ∈ l → y ∈ l → f x = f y → x = y.
Proof.
  induction l as [|a l IH]; intros Hnd Hx Hy Hf; [by apply elem_of_nil in Hx|].
  rewrite fmap_cons in Hnd. apply NoDup_cons in Hnd as [Ha Hnd].
  apply elem_of_cons in Hx as [->|Hx]; apply elem_of_cons in Hy as [->|Hy].
  - done.
  - exfalso. apply Ha. rewrite Hf. by apply list_elem_of_fmap_2.
  - exfalso. apply Ha. rewrite <- Hf. by apply list_elem_of_fmap_2.
  - by apply IH.
Qed.

Lemma unique_ids_NoDup db : unique_ids db → NoDup db.
Proof. apply NoDup_fmap_1. Qed.

Lemma unique_ids_eq db r1 r2 :
  unique_ids db → r1 ∈ db → r2 ∈ db → client.id r1 = client.id r2 → r1 = r2.
Proof. apply NoDup_fmap_eq. Qed.

Lemma elem_of_lane s db r : r ∈ lane s db ↔ client.status r = s ∧ r ∈ db.
Proof. unfold lane. by rewrite list_elem_of_filter. Qed.

Lemma I1_ranked db : I1 db → ranked db.
Proof.
  intros HI r Hr. specialize (HI (client.status r)).
  assert (client.priority r ∈ client.priority <$> lane (client.status r) db) as Hp.
  { apply list_elem_of_fmap_2, elem_of_lane. done. }
  rewrite HI in Hp. apply list_elem_of_fmap in Hp as (n & -> & Hn).
  apply elem_of_seq in Hn. lia.
Qed.

Lemma I1_unique_ranks db : I1 db → unique_ranks db.
Proof.
  intros HI r1 r2 H1 H2 Hs Hp. specialize (HI (client.status r1)).
  apply (NoDup_fmap_eq client.priority (lane (client.status r1) db)).
  - rewrite HI. apply NoDup_fmap_2; [apply Nat2Z.inj'|apply NoDup_seq].
  - by apply elem_of_lane.
  - by apply elem_of_lane.
  - done.
Qed.

Lemma I1_intro db : NoDup db → ranked db → unique_ranks db → I1 db.
Proof.
  intros Hnd Hrk Huq s.
  apply submseteq_length_Permutation.
  - apply NoDup_submseteq.
    + apply NoDup_fmap_2_strong; [|by apply NoDup_filter].
      intros r1 r2 H1%elem_of_lane H2%elem_of_lane Hp.
      apply Huq; [tauto|tauto|by etransitivity; [apply H1|symmetry; apply H2]|done].
    + intros p Hp. apply list_elem_of_fmap in Hp as (r & -> & Hr%elem_of_lane).
      destruct Hr as [<- Hr]. specialize (Hrk r Hr).
      apply list_elem_of_fmap. exists (Z.to_nat (client.priority r)).
      split; [lia|]. apply elem_of_seq. lia.
  - by rewrite !length_fmap, length_seq.
Qed.

(** ** Lane sizes under a row map *)

Lemma lane_cons s r l :
  lane s (r :: l)
  = if decide (client.status r = s) then r :: lane s l else lane s l.
Proof. unfold lane. by rewrite filter_cons. Qed.

Lemma lane_length_same f s l :
  (∀ r, r ∈ l → client.status (f r) = client.status r) →
  length (lane s (f <$> l)) = length (lane s l).
Proof.
  induction l as [|a l IH]; intros Hf; [done|].
  rewrite fmap_cons, !lane_cons, Hf by (by left).
  assert (length (lane s (f <$> l)) = length (lane s l)) as Hl.
  { apply IH. intros r Hr. apply Hf. by right. }
  destruct (decide (client.status a = s)); simpl; by rewrite Hl.
Qed.

(** When only the target changes lane, from its own to [L], its old lane
    loses one client and [L] gains one. *)
Lemma lane_length_moved f s db id c L :
  unique_ids db → c ∈ db → client.id c = id →
  (∀ r, r ∈ db → client.id r ≠ id → client.status (f r) = client.status r) →
  client.status (f c) = L →
  (length (lane s (f <$> db)) + (if decide (client.status c = s) then 1 else 0)
   = length (lane s db) + (if decide (L = s) then 1 else 0))%nat.
Proof.
  intros Hnd Hc Hid Hf HL. induction db as [|a db IH]; [by apply elem_of_nil in Hc|].
  unfold unique_ids in Hnd. rewrite fmap_cons in Hnd.
  apply NoDup_cons in Hnd as [Ha Hnd].
  rewrite fmap_cons, !lane_cons.
  destruct (decide (a = c)) as [->|Hac].
  - rewrite HL.
    assert (length (lane s (f <$> db)) = length (lane s db)) as Hl.
    { apply lane_length_same. intros r Hr. apply Hf; [by right|].
      intros Heq. apply Ha. rewrite Hid, <- Heq. by apply list_elem_of_fmap_2. }
    destruct (decide (L = s)), (decide (client.status c = s)); simpl; lia.
  - apply elem_of_cons in Hc as [->|Hc]; [done|].
    assert (client.id a ≠ id) as Hne.
    { intros Heq. apply Ha. rewrite Heq, <- Hid. by apply list_elem_of_fmap_2. }
    rewrite Hf by (done || by left).
    specialize (IH Hnd Hc).
    assert (∀ r, r ∈ db → client.id r ≠ id → client.status (f r) = client.status r)
      as Hf' by (intros r Hr; apply Hf; by right).
    specialize (IH Hf').
    destruct (decide (client.status a = s)); simpl; lia.
Qed.

Lemma unique_ids_fmap f db :
  (∀ r, client.id (f r) = client.id r) → unique_ids db → unique_ids (f <$> db).
Proof.
  unfold unique_ids. intros Hf H. rewrite <- list_fmap_compose.
  erewrite list_fmap_ext; [exact H|]. intros i r _. apply Hf.
Qed.

Lemma rotate_row_id id S O P r : client.id (rotate_row id S O P r) = client.id r.
Proof. unfold rotate_row. repeat case_bool_decide; done. Qed.

Lemma rotate_row_status id S O P r :
  client.status (rotate_row id S O P r) = client.status r.
Proof. unfold rotate_row. repeat case_bool_decide; done. Qed.

Lemma insert_row_id id S O L P r : client.id (insert_row id S O L P r) = client.id r.
Proof. unfold insert_row. repeat case_bool_decide; done. Qed.

(** ** Density is kept by a rotation and by an insertion *)


Lemma I1_rotate db id k c P :
  unique_ids db → I1 db →
  target db id = Some (k, c) →
  1 ≤ P ≤ Z.of_nat (length (lane (client.status c) db)) →
  I1 (rotate_row id (client.status c) (client.priority c) P <$> db).
Proof.
  intros Hnd HI Ht HP.
  destruct (target_Some _ _ _ _ Ht) as [Hk Hid].
  assert (c ∈ db) as Hc by (by eapply list_elem_of_lookup_2).
  pose proof (I1_ranked db HI) as Hrk. pose proof (I1_unique_ranks db HI) as Huq.
  set (f := rotate_row id (client.status c) (client.priority c) P).
  apply I1_intro.
  - apply unique_ids_NoDup, unique_ids_fmap; [apply rotate_row_id|done].
  - intros r' Hr'. apply list_elem_of_fmap in Hr' as (r & -> & Hr).
    rewrite lane_length_same by (intros; apply rotate_row_status).
    unfold f. rewrite rotate_row_status.
    pose proof (Hrk r Hr) as Hr1. pose proof (Hrk c Hc) as Hc1.
    unfold rotate_row. case_bool_decide as Hrid.
    { assert (r = c) as -> by (apply (unique_ids_eq db); [done..|congruence]).
      simpl. lia. }
    repeat case_bool_decide; simpl; destruct_and?;
      try match goal with
          | H : client.status r = client.status c |- _ => rewrite H in *
          end; lia.
  - intros r1' r2' H1 H2.
    apply list_elem_of_fmap in H1 as (r1 & -> & Hr1).
    apply list_elem_of_fmap in H2 as (r2 & -> & Hr2).
    unfold f. rewrite !rotate_row_status. intros Hs Hp.
    enough (r1 = r2) as -> by done.
    pose proof (Huq r1 r2 Hr1 Hr2 Hs) as H12.
    pose proof (Huq r1 c Hr1 Hc) as H1c.
    pose proof (Huq r2 c Hr2 Hc) as H2c.
    pose proof (unique_ids_eq db r1 r2 Hnd Hr1 Hr2) as Hi12.
    assert (client.id r1 = id → client.status r1 = client.status c
                                ∧ client.priority r1 = client.priority c) as H1t.
    { intros H. by assert (r1 = c) as -> by (apply (unique_ids_eq db); [done..|congruence]). }
    assert (client.id r2 = id → client.status r2 = client.status c
                                ∧ client.priority r2 = client.priority c) as H2t.
    { intros H. by assert (r2 = c) as -> by (apply (unique_ids_eq db); [done..|congruence]). }
    unfold rotate_row in Hp.
    repeat case_bool_decide; simpl in Hp; destruct_and?; lane_negs;
      try match goal with
          | H : client.id r1 = id |- _ => destruct (H1t H)
          end;
      try match goal with
          | H : client.id r2 = id |- _ => destruct (H2t H)
          end;
      first [ apply Hi12; congruence
            | apply H12; lia
            | exfalso; lia
            | exfalso; congruence
            | exfalso; assert (r1 = c) by (apply H1c; [congruence|lia]); congruence
            | exfalso; assert (r2 = c) by (apply H2c; [congruence|lia]); congruence ].
Qed.

Lemma I1_insert db id k c L P :
  unique_ids db → I1 db →
  target db id = Some (k, c) →
  L ≠ client.status c →
  1 ≤ P ≤ Z.of_nat (length (lane L db)) + 1 →
  I1 (insert_row id (client.status c) (client.priority c) L P <$> db).
Proof.
  intros Hnd HI Ht HL HP.
  destruct (target_Some _ _ _ _ Ht) as [Hk Hid].
  assert (c ∈ db) as Hc by (by eapply list_elem_of_lookup_2).
  pose proof (I1_ranked db HI) as Hrk. pose proof (I1_unique_ranks db HI) as Huq.
  set (f := insert_row id (client.status c) (client.priority c) L P).
  assert (∀ r, r ∈ db → client.id r = id → r = c) as Htgt.
  { intros r Hr H. apply (unique_ids_eq db); [done..|congruence]. }
  assert (∀ r, r ∈ db → client.id r ≠ id → client.status (f r) = client.status r)
    as Hkeep.
  { intros r Hr H. unfold f, insert_row. rewrite (bool_decide_eq_false_2 _ H).
    repeat case_bool_decide; done. }
  assert (client.status (f c) = L) as Hmove.
  { unfold f, insert_row. by rewrite (bool_decide_eq_true_2 _ Hid). }
  apply I1_intro.
  - apply unique_ids_NoDup, unique_ids_fmap; [apply insert_row_id|done].
  - intros r' Hr'. apply list_elem_of_fmap in Hr' as (r & -> & Hr).
    pose proof (lane_length_moved f (client.status (f r)) db id c L
                  Hnd Hc Hid Hkeep Hmove) as Hlen.
    pose proof (Hrk r Hr) as Hr1. pose proof (Hrk c Hc) as Hc1.
    pose proof (Huq r c Hr Hc) as Hrc.
    destruct (decide (client.id r = id)) as [Hrid|Hrid].
    { rewrite (Htgt r Hr Hrid) in *. rewrite Hmove in *.
      rewrite decide_False in Hlen by done. rewrite decide_True in Hlen by done.
      remember (length (lane L (f <$> db))) as n' eqn:Hn'. clear Hn'.
      unfold f, insert_row. rewrite (bool_decide_eq_true_2 _ Hid). simpl. lia. }
    rewrite (Hkeep r Hr Hrid) in *.
    assert (r ≠ c) as Hne by congruence.
    remember (length (lane (client.status r) (f <$> db))) as n' eqn:Hn'. clear Hn'.
    unfold f, insert_row. rewrite (bool_decide_eq_false_2 _ Hrid).
    repeat case_bool_decide; simpl; destruct_and?; lane_negs;
      repeat match type of Hlen with
             | context [decide ?X] => destruct (decide X)
             end;
      try match goal with
          | H : client.status r = client.status c |- _ => rewrite H in *
          | H : client.status c = client.status r |- _ => rewrite <- H in *
          end;
      first [ lia | congruence
            | assert (client.priority r ≠ client.priority c)
                by (intros ?; apply Hne, Hrc; [congruence|done]); lia ].
  - intros r1' r2' H1 H2.
    apply list_elem_of_fmap in H1 as (r1 & -> & Hr1).
    apply list_elem_of_fmap in H2 as (r2 & -> & Hr2).
    intros Hs Hp.
    enough (r1 = r2) as -> by done.
    pose proof (Huq r1 r2 Hr1 Hr2) as H12.
    pose proof (Huq r1 c Hr1 Hc) as H1c.
    pose proof (Huq r2 c Hr2 Hc) as H2c.
    pose proof (unique_ids_eq db r1 r2 Hnd Hr1 Hr2) as Hi12.
    pose proof (Htgt r1 Hr1) as H1t. pose proof (Htgt r2 Hr2) as H2t.
    unfold f, insert_row in Hs, Hp.
    repeat case_bool_decide; simpl in Hs, Hp; destruct_and?; lane_negs;
      first [ apply Hi12; congruence
            | apply H12; [congruence|lia]
            | exfalso; lia
            | exfalso; congruence
            | exfalso; assert (r1 = c) by (apply H1c; [congruence|lia]); congruence
            | exfalso; assert (r2 = c) by (apply H2c; [congruence|lia]); congruence ].
Qed.

(** ** What a shift loop does to a row *)

Lemma occupant_Some clients status cur i m :
  occupant clients status cur = Some (i, m) →
  m ∈ clients ∧ client.priority m = cur ∧ Some (client.status m) = status.
Proof.
  intros H. apply list_find_Some in H as (Hi & [? ?] & _).
  split; [by eapply list_elem_of_lookup_2|done].
Qed.

Lemma occupant_None clients status cur r :
  occupant clients status cur = None → r ∈ clients →
  ¬ (client.priority r = cur ∧ Some (client.status r) = status).
Proof.
  intros H Hr. apply list_find_None in H. rewrite Forall_forall in H. by apply H.
Qed.

(** In a table with unique identifiers and unique ranks, the loop over
    the slots [cur], [cur + step], .. of the lane [s] writes to the row
    [r] exactly when [r] occupies one of these slots, and then moves it
    by [step]. *)
Lemma row_after_shift db s step n r :
  unique_ids db → unique_ranks db → r ∈ db →
  step = 1 ∨ step = -1 →
  ∀ cur x, client.id x = client.id r →
    row_after (shift_statements step db (Some s) cur n) x
    = if bool_decide (client.status r = s
                      ∧ 0 ≤ step * (client.priority r - cur) < Z.of_nat n)
      then client.with_priority (client.priority r + step) x else x.
Proof.
  intros Hnd Huq Hr Hstep. induction n as [|n IH]; intros cur x Hx.
  { simpl. rewrite bool_decide_eq_false_2 by lia. done. }
  simpl shift_statements. rewrite row_after_app.
  assert (∀ x', client.id x' = client.id r →
            ¬ (client.status r = s ∧ client.priority r = cur) →
            row_after (shift_statements step db (Some s) (cur + step) n) x'
            = if bool_decide (client.status r = s
                              ∧ 0 ≤ step * (client.priority r - cur) < Z.of_nat (S n))
              then client.with_priority (client.priority r + step) x' else x')
    as Hskip.
  { intros x' Hx' Hnot. rewrite IH by done.
    erewrite bool_decide_ext; [reflexivity|].
    destruct Hstep as [-> | ->]; split; intros [? ?]; (split; [done|]);
      (assert (client.priority r ≠ cur) by tauto); lia. }
  destruct (occupant db (Some s) cur) as [[i m]|] eqn:Hocc.
  - apply occupant_Some in Hocc as (Hm & Hpm & Hsm).
    rewrite row_after_one. simpl update_row.
    destruct (decide (client.id x = client.id m)) as [Hxm|Hxm].
    + rewrite (bool_decide_eq_true_2 _ Hxm).
      assert (r = m) as -> by (apply (unique_ids_eq db); [done..|congruence]).
      rewrite IH by done.
      rewrite bool_decide_eq_false_2 by (destruct Hstep as [-> | ->]; lia).
      rewrite bool_decide_eq_true_2; [by rewrite Hpm|].
      split; [congruence|]. destruct Hstep as [-> | ->]; lia.
    + rewrite (bool_decide_eq_false_2 _ Hxm). apply Hskip; [done|].
      intros [Hs Hp]. apply Hxm. rewrite Hx. f_equal.
      apply Huq; [done|done|congruence|congruence].
  - rewrite row_after_nil. apply Hskip; [done|].
    intros [Hs Hp]. apply (occupant_None _ _ _ r Hocc Hr). split; congruence.
Qed.

(** ** Moves within a lane, with the lane named in the request *)

Lemma truthy_priority_Some P : P ≠ 0 → truthy_priority (Some P) = true.
Proof. intros HP. simpl. by destruct (Z.eqb_spec P 0). Qed.

Lemma with_priority_twice p q r :
  client.with_priority p (client.with_priority q r) = client.with_priority p r.
Proof. reflexivity. Qed.

(** A request that repeats the target's status and gives a new priority
    [P]: the rotation of the specification. *)
Lemma rotation_request fuel db id k c P :
  unique_ids db → unique_ranks db →
  target db id = Some (k, c) →
  P ≠ 0 → P ≠ client.priority c →
  (Z.abs_nat (P - client.priority c) ≤ fuel)%nat →
  ∃ qs, put_client fuel db id (Some (client.status c)) (Some P)
        = Sent {| table := rotate_row id (client.status c) (client.priority c) P <$> db;
                  issued := qs |}.
Proof.
  intros Hnd Huq Ht HP HO Hfuel. destruct (target_Some _ _ _ _ Ht) as [Hk Hid].
  rewrite (put_client_table _ _ _ _ _ k c Ht)
    by (unfold shift_iterations; rewrite truthy_priority_Some by done; exact Hfuel).
  eexists. f_equal. f_equal.
  assert (truthy_status (Some (client.status c))
          && bool_decide (Some (client.status c) ≠ Some (client.status c)) = false)
    as Hsc.
  { rewrite bool_decide_eq_false_2 by (intros H; by apply H). apply andb_false_r. }
  assert (truthy_priority (Some P)
          && bool_decide (Some P ≠ Some (client.priority c)) = true) as Hpc.
  { rewrite truthy_priority_Some, bool_decide_eq_true_2 by congruence. done. }
  unfold request_statements. cbv zeta. rewrite Hsc, Hpc.
  change (default 0 (Some P)) with P. cbn [andb]. rewrite !app_nil_r.
  clear Hsc Hpc.
  apply list_fmap_ext. intros i r Hr.
  assert (r ∈ db) as Hin by (by eapply list_elem_of_lookup_2).
  rewrite row_after_app, row_after_one.
  rewrite (row_after_shift db (client.status c) _ _ r Hnd Huq Hin)
    by first [done | destruct (bool_decide _); [by left|by right]].
  unfold rotate_row.
  match goal with
  | |- context [bool_decide (client.status r = client.status c ∧ ?X)] =>
      destruct (decide (client.status r = client.status c ∧ X)) as [Hcond|Hcond];
      [rewrite (bool_decide_eq_true_2 _ Hcond)
      |rewrite (bool_decide_eq_false_2 _ Hcond)]
  end; simpl update_row; rewrite Hid;
    (destruct (decide (client.id r = id)) as [Hrid|Hrid];
     [rewrite !(bool_decide_eq_true_2 (client.id r = id)) by done; done
     |rewrite !(bool_decide_eq_false_2 (client.id r = id)) by done]).
  - destruct Hcond as [Hs Hcond].
    destruct (decide (client.priority c > P)) as [Hgt|Hgt].
    + rewrite (bool_decide_eq_true_2 _ Hgt) in *.
      rewrite bool_decide_eq_true_2 by (split; [done|lia]). done.
    + rewrite (bool_decide_eq_false_2 _ Hgt) in *.
      rewrite (bool_decide_eq_false_2 (_ ∧ P ≤ _ < _)) by lia.
      rewrite bool_decide_eq_true_2 by (split; [done|lia]). done.
  - destruct (decide (client.priority c > P)) as [Hgt|Hgt].
    + rewrite (bool_decide_eq_true_2 _ Hgt) in *.
      rewrite !bool_decide_eq_false_2; [done|lia|].
      intros [Hs ?]. apply Hcond. split; [done|lia].
    + rewrite (bool_decide_eq_false_2 _ Hgt) in *.
      rewrite !bool_decide_eq_false_2; [done| |lia].
      intros [Hs ?]. apply Hcond. split; [done|lia].
Qed.

(** ** Moves to another lane with a priority *)

Lemma with_priority_same r : client.with_priority (client.priority r) r = r.
Proof. by destruct r. Qed.

Lemma insert_row_split id s O L P r :
  L ≠ s →
  bump (below_in s O) (-1) (make_room_row id L P r) = insert_row id s O L P r.
Proof.
  intros HL. unfold bump, below_in, make_room_row, insert_row.
  destruct (decide (client.id r = id)) as [Hid|Hid].
  { rewrite !(bool_decide_eq_true_2 _ Hid). simpl.
    rewrite (bool_decide_eq_false_2 (L = s)) by done. by rewrite andb_false_r. }
  rewrite !(bool_decide_eq_false_2 _ Hid).
  destruct (decide (client.status r = L ∧ P ≤ client.priority r)) as [H1|H1].
  { rewrite !(bool_decide_eq_true_2 _ H1). simpl.
    rewrite (bool_decide_eq_false_2 (client.status r = s)) by (destruct H1; congruence).
    by rewrite andb_false_r. }
  rewrite !(bool_decide_eq_false_2 _ H1).
  destruct (decide (client.status r = s ∧ O < client.priority r)) as [H2|H2].
  - rewrite (bool_decide_eq_true_2 _ H2). destruct H2 as [H2 H3].
    rewrite (bool_decide_eq_true_2 (client.status r = s)) by done.
    rewrite bool_decide_eq_true_2 by lia. done.
  - rewrite (bool_decide_eq_false_2 _ H2).
    destruct (decide (client.status r = s)) as [H3|H3].
    + rewrite (bool_decide_eq_false_2 (_ > O)) by (intros ?; apply H2; split; [done|lia]).
      done.
    + rewrite (bool_decide_eq_false_2 _ H3). by rewrite andb_false_r.
Qed.

(** The rotation that runs first when status and priority both change
    only rewrites priorities, and only those of rows the push-down
    rewrites again, as long as the new slot is not more than one below
    the old one. *)
Lemma row_after_stray_rotation db id k c L P r :
  unique_ids db → unique_ranks db →
  target db id = Some (k, c) → r ∈ db →
  P ≤ client.priority c + 1 →
  let qs1 :=
    if bool_decide (Some P ≠ Some (client.priority c))
    then shift_statements
           (if bool_decide (client.priority c > P) then 1 else -1)
           db (Some L) P (Z.abs_nat (P - client.priority c))
         ++ [UPDATE_priority P (client.id c)]
    else [] in
  ∃ q, row_after qs1 r = client.with_priority q r
       ∧ (client.id r ≠ id →
          ¬ (client.status r = L ∧ P ≤ client.priority r) →
          q = client.priority r).
Proof.
  intros Hnd Huq Ht Hr HP qs1. destruct (target_Some _ _ _ _ Ht) as [Hk Hid].
  unfold qs1. case_bool_decide as Hpc.
  2:{ exists (client.priority r). by rewrite row_after_nil, with_priority_same. }
  rewrite row_after_app, row_after_one.
  rewrite (row_after_shift db L _ _ r Hnd Huq Hr)
    by first [done | destruct (bool_decide _); [by left|by right]].
  simpl update_row. rewrite Hid.
  match goal with
  | |- context [bool_decide (client.status r = L ∧ ?X)] =>
      destruct (decide (client.status r = L ∧ X)) as [Hcond|Hcond];
      [rewrite (bool_decide_eq_true_2 _ Hcond)
      |rewrite (bool_decide_eq_false_2 _ Hcond)]
  end; simpl client.id;
    (destruct (decide (client.id r = id)) as [Hrid|Hrid];
     [rewrite !(bool_decide_eq_true_2 (client.id r = id)) by done;
      exists P; split; [done|by intros ?]
     |rewrite !(bool_decide_eq_false_2 (client.id r = id)) by done]).
  - eexists. split; [reflexivity|]. intros _ Hnot. exfalso. apply Hnot.
    destruct Hcond as [Hs Hcond]. split; [done|].
    revert Hcond. case_bool_decide; lia.
  - exists (client.priority r). by rewrite with_priority_same.
Qed.

Lemma unique_ids_insert db k c c' :
  unique_ids db → db !! k = Some c → client.id c' = client.id c →
  unique_ids (<[k := c']> db).
Proof.
  unfold unique_ids. intros Hnd Hk Hid.
  rewrite list_fmap_insert, Hid, list_insert_id; [done|].
  by rewrite list_lookup_fmap, Hk.
Qed.

(** The table once room is made and the target placed, whether or not
    the rotation ran before. *)
Lemma row_after_make_room db id k c L P r :
  unique_ids db → unique_ranks db →
  target db id = Some (k, c) → r ∈ db →
  P ≤ client.priority c + 1 →
  let qs1 :=
    if bool_decide (Some P ≠ Some (client.priority c))
    then shift_statements
           (if bool_decide (client.priority c > P) then 1 else -1)
           db (Some L) P (Z.abs_nat (P - client.priority c))
         ++ [UPDATE_priority P (client.id c)]
    else [] in
  let push :=
    for_statements (at_or_below_in L P) 1
      (<[k := client.with_status L c]> db) in
  row_after (push ++ [UPDATE_status_priority L P id]) (row_after qs1 r)
  = make_room_row id L P r.
Proof.
  intros Hnd Huq Ht Hr HP qs1 push. destruct (target_Some _ _ _ _ Ht) as [Hk Hid].
  destruct (row_after_stray_rotation db id k c L P r Hnd Huq Ht Hr HP)
    as (q & Hq & Hkeep).
  fold qs1 in Hq. rewrite Hq. clear Hq.
  assert (unique_ids (<[k := client.with_status L c]> db)) as Hnd'.
  { by apply (unique_ids_insert db k c). }
  rewrite row_after_app, row_after_one. unfold make_room_row.
  destruct (decide (client.id r = id)) as [Hrid|Hrid].
  - rewrite (bool_decide_eq_true_2 _ Hrid). simpl update_row.
    rewrite row_after_id. simpl client.id.
    rewrite (bool_decide_eq_true_2 _ Hrid).
    unfold client.with_status, client.with_priority. simpl.
    by rewrite row_after_id, row_after_extra.
  - rewrite (bool_decide_eq_false_2 _ Hrid).
    assert (r ∈ <[k := client.with_status L c]> db) as Hr'.
    { apply list_elem_of_lookup in Hr as [j Hj].
      apply (list_elem_of_lookup_2 _ j). rewrite list_lookup_insert_ne; [done|].
      intros ->. rewrite Hk in Hj. congruence. }
    unfold push.
    rewrite (row_after_for_at _ _ _ r) by done.
    unfold at_or_below_in.
    destruct (decide (client.status r = L ∧ P ≤ client.priority r)) as [H1|H1].
    + rewrite (bool_decide_eq_true_2 _ H1). destruct H1 as [H1 H2].
      rewrite (bool_decide_eq_true_2 (_ >= P)) by lia.
      rewrite (bool_decide_eq_true_2 _ H1). simpl.
      by rewrite (bool_decide_eq_false_2 _ Hrid).
    + rewrite (bool_decide_eq_false_2 _ H1).
      rewrite (Hkeep Hrid H1), with_priority_same.
      assert (bool_decide (client.priority r >= P)
              && bool_decide (client.status r = L) = false) as ->.
      { apply andb_false_iff.
        destruct (decide (client.status r = L)) as [Hs|Hs].
        - left. apply bool_decide_eq_false_2. intros ?. apply H1. split; [done|lia].
        - right. by apply bool_decide_eq_false_2. }
      simpl. by rewrite (bool_decide_eq_false_2 _ Hrid).
Qed.

Lemma make_room_row_id id L P r : client.id (make_room_row id L P r) = client.id r.
Proof. unfold make_room_row. repeat case_bool_decide; done. Qed.

(** A request that names another lane [L] and a slot [P] no more than
    one below the target's old one: the insertion of the
    specification. *)
Lemma insertion_request fuel db id k c L P :
  unique_ids db → unique_ranks db →
  target db id = Some (k, c) →
  L ≠ "" → L ≠ client.status c →
  P ≠ 0 → P ≤ client.priority c + 1 →
  (Z.abs_nat (P - client.priority c) ≤ fuel)%nat →
  ∃ qs, put_client fuel db id (Some L) (Some P)
        = Sent {| table := insert_row id (client.status c) (client.priority c) L P <$> db;
                  issued := qs |}.
Proof.
  intros Hnd Huq Ht HL HS HP HPO Hfuel.
  destruct (target_Some _ _ _ _ Ht) as [Hk Hid].
  rewrite (put_client_table _ _ _ _ _ k c Ht)
    by (unfold shift_iterations; rewrite truthy_priority_Some by done; exact Hfuel).
  eexists. f_equal. f_equal.
  assert (truthy_status (Some L)
          && bool_decide (Some L ≠ Some (client.status c)) = true) as Hsc.
  { rewrite truthy_status_Some, bool_decide_eq_true_2 by congruence. done. }
  unfold request_statements. cbv zeta.
  rewrite Hsc, (truthy_priority_Some P HP).
  change (default 0 (Some P)) with P. change (default "" (Some L)) with L.
  cbn [andb negb]. clear Hsc.
  unfold status_priority_statements. cbv zeta.
  rewrite !app_nil_l, !app_nil_r.
  set (qs1 := if bool_decide (Some P ≠ Some (client.priority c)) then _ else _).
  set (push := for_statements (at_or_below_in L P) 1 _).
  set (move := UPDATE_status_priority L P id).
  assert (row_after (push ++ [move]) <$> (row_after qs1 <$> db)
          = make_room_row id L P <$> db) as HT1.
  { rewrite <- list_fmap_compose. apply list_fmap_ext. intros i r Hr. simpl.
    apply (row_after_make_room db id k c L P r); [done..| |done].
    by eapply list_elem_of_lookup_2. }
  rewrite HT1.
  apply list_fmap_ext. intros i r Hr.
  assert (r ∈ db) as Hin by (by eapply list_elem_of_lookup_2).
  rewrite row_after_app, row_after_app.
  unfold qs1, push, move.
  rewrite (row_after_make_room db id k c L P r) by done.
  rewrite row_after_for_own.
  - by apply insert_row_split.
  - apply unique_ids_fmap; [apply make_room_row_id|done].
  - by apply list_elem_of_fmap_2.
Qed.

(** ** Status-only moves as insertions at the bottom *)

Lemma maxPriority_bounds db L :
  ranked db → 0 ≤ maxPriority db L ≤ Z.of_nat (length (lane L db)).
Proof.
  intros Hrk. unfold maxPriority. rewrite maxPriority_from.
  assert (Forall (λ p, p ≤ Z.of_nat (length (lane L db)))
                 (client.priority <$> lane L db)) as Hall.
  { apply Forall_fmap, Forall_forall. intros r Hr%elem_of_lane.
    destruct Hr as [<- Hr]. simpl. apply (Hrk r Hr). }
  assert (0 ≤ Z.of_nat (length (lane L db))) as Hn by lia.
  revert Hall Hn. generalize (Z.of_nat (length (lane L db))).
  generalize (client.priority <$> lane L db).
  intros ps n Hall Hn. induction Hall as [|p ps Hp Hall IH]; simpl; lia.
Qed.

Lemma status_only_as_insert db id c L :
  c ∈ db →
  (λ r, if bool_decide (client.id r = id)
        then client.with_status L
               (client.with_priority (maxPriority db L + 1) r)
        else if bool_decide (client.status r = client.status c
                             ∧ client.priority r > client.priority c)
        then client.with_priority (client.priority r - 1) r
        else r) <$> db
  = insert_row id (client.status c) (client.priority c) L (maxPriority db L + 1) <$> db.
Proof.
  intros Hc. apply list_fmap_ext. intros i r Hr. simpl. unfold insert_row.
  case_bool_decide as Hid; [done|].
  rewrite (bool_decide_eq_false_2 (client.status r = L ∧ _)).
  2:{ intros [Hs Hp]. pose proof (maxPriority_ge db L r) as Hmax.
      assert (r ∈ db) as Hin by (by eapply list_elem_of_lookup_2).
      specialize (Hmax Hin Hs). lia. }
  erewrite bool_decide_ext; [reflexivity|]. split; intros [? ?]; split; (done || lia).
Qed.

(** ** Density *)

(** C1 (P1, density), amended: on a table with unique identifiers that
    satisfies I1, a reorder request on an existing client that changes
    nothing, or repeats the client's lane with a priority between 1 and
    the size of that lane, or names another lane without a usable
    priority, or names another lane with a priority between 1 and one
    past the size of that lane and at most one more than the client's
    old priority, is answered with a table that satisfies I1. *)
Theorem density_preserved fuel db id status priority k c :
  unique_ids db → I1 db →
  target db id = Some (k, c) →
  in_range db c status priority →
  (shift_iterations (client.priority c) priority ≤ fuel)%nat →
  ∃ w, put_client fuel db id status priority = Sent w ∧ I1 (table w).
Proof.
  intros Hnd HI Ht Hrange Hfuel.
  pose proof (I1_unique_ranks db HI) as Huq. pose proof (I1_ranked db HI) as Hrk.
  destruct (target_Some _ _ _ _ Ht) as [Hk Hid].
  assert (c ∈ db) as Hc by (by eapply list_elem_of_lookup_2).
  destruct Hrange as [status priority Hno|P HP|L priority HL HS Hp|L P HL HS HP HPO].
  - eexists. split; [by apply (put_client_no_op _ _ _ _ _ k c)|done].
  - destruct (decide (P = client.priority c)) as [->|HPO].
    { eexists. split; [|].
      - apply (put_client_no_op _ _ _ _ _ k c Ht), classify_same.
      - exact HI. }
    assert (P ≠ 0) as HP0 by lia.
    unfold shift_iterations in Hfuel. rewrite truthy_priority_Some in Hfuel by done.
    destruct (rotation_request fuel db id k c P Hnd Huq Ht HP0 HPO Hfuel) as [qs Hqs].
    eexists. split; [exact Hqs|]. simpl. by apply (I1_rotate db id k c P).
  - destruct (status_only_request fuel db id k c L priority Hnd Ht HL HS Hp) as [qs Hqs].
    eexists. split; [exact Hqs|]. simpl.
    rewrite (status_only_as_insert db id c L Hc).
    apply (I1_insert db id k c L); [done..|].
    pose proof (maxPriority_bounds db L Hrk). lia.
  - assert (P ≠ 0) as HP0 by lia.
    unfold shift_iterations in Hfuel. rewrite truthy_priority_Some in Hfuel by done.
    destruct (insertion_request fuel db id k c L P Hnd Huq Ht HL HS HP0 HPO Hfuel)
      as [qs Hqs].
    eexists. split; [exact Hqs|]. simpl. by apply (I1_insert db id k c L).
Qed.

(** I1 of a given table, by evaluation. *)
Lemma I1_decide db :
  NoDup db →
  Forall (λ r, 1 ≤ client.priority r
               ≤ Z.of_nat (length (lane (client.status r) db))) db →
  Forall (λ r1, Forall (λ r2, client.status r1 = client.status r2 →
                              client.priority r1 = client.priority r2 →
                              r1 = r2) db) db →
  I1 db.
Proof.
  intros Hnd Hrk Huq. apply I1_intro; [done| |].
  - intros r Hr. rewrite Forall_forall in Hrk. by apply Hrk.
  - intros r1 r2 H1 H2. rewrite Forall_forall in Huq. specialize (Huq r1 H1).
    rewrite Forall_forall in Huq. by apply Huq.
Qed.

Lemma I1_backlog : I1 [A; B; C].
Proof. apply I1_decide; compute_done. Qed.

Lemma density_preserved_witness :
  ∃ w, put_client 2 [A; B; C] 1 (Some "backlog") (Some 3) = Sent w ∧ I1 (table w).
Proof.
  apply (density_preserved 2 [A; B; C] 1 (Some "backlog") (Some 3) 0%nat A).
  - unfold unique_ids. compute_done.
  - exact I1_backlog.
  - reflexivity.
  - apply (range_same_lane [A; B; C] A 3). change (1 ≤ 3 ≤ 3). lia.
  - change (2 ≤ 2)%nat. lia.
Defined.

(** C1 as stated fails for a priority beyond the bottom of the lane:
    moving A to slot 7 of a lane of three leaves the ranks 7, 1, 2. *)
Lemma density_counterexample :
  unique_ids [A; B; C] ∧ I1 [A; B; C]
  ∧ target [A; B; C] 1 = Some (0%nat, A)
  ∧ ∃ w, put_client 6 [A; B; C] 1 (Some "backlog") (Some 7) = Sent w
       ∧ ¬ I1 (table w).
Proof.
  split; [unfold unique_ids; compute_done|].
  split; [exact I1_backlog|]. split; [reflexivity|].
  eexists. split; [vm_compute; reflexivity|].
  intros HI. apply I1_ranked in HI.
  specialize (HI (client.with_priority 7 A)).
  assert (client.with_priority 7 A
            ∈ [client.with_priority 7 A; client.with_priority 1 B;
               client.with_priority 2 C]) as Hin by (by left).
  specialize (HI Hin). change (1 ≤ 7 ≤ 3) in HI. lia.
Qed.

(** ** Where the handler leaves the specification *)

(** When the request changes at most one of status and priority, the
    handler runs the one case the specification selects. *)
Lemma one_case_unless_both fuel db id status priority k c :
  target db id = Some (k, c) →
  ¬ (truthy_status status && bool_decide (status ≠ Some (client.status c)) = true
     ∧ truthy_priority priority
       && bool_decide (priority ≠ Some (client.priority c)) = true) →
  put_client fuel db id status priority = reorder_one_case fuel db id status priority.
Proof.
  intros Ht Hnot. unfold put_client, reorder_one_case, classify, all.
  simpl table. rewrite Ht. cbv zeta.
  destruct (truthy_status status && _) eqn:Hsc;
    destruct (truthy_priority priority && _) eqn:Hpc.
  - exfalso. by apply Hnot.
  - destruct (truthy_priority priority); simpl.
    + by destruct (status_priority_branch _ _ _ _ _ _ _) as [? []].
    + by destruct (status_only_branch _ _ _ _ _) as [? []].
  - simpl. by destruct (priority_branch _ _ _ _ _ _) as [[]|].
  - reflexivity.
Qed.

(** C2: a request that changes both status and priority is classified
    as status-and-priority, yet the handler first issues the statements
    of the priority-only rotation (against the new lane) and then those
    of the status-and-priority case; the table it answers with differs
    from the one that case alone produces. *)
Theorem both_changed_runs_the_rotation_too :
  classify A (Some "in-progress") (Some 3) = Status_and_priority
  ∧ ∃ w w',
      put_client 2 [A; D; E; F] 1 (Some "in-progress") (Some 3) = Sent w
      ∧ reorder_one_case 2 [A; D; E; F] 1 (Some "in-progress") (Some 3) = Sent w'
      ∧ issued w' = [UPDATE_priority 4 6; UPDATE_status_priority "in-progress" 3 1]
      ∧ issued w
        = [UPDATE_priority 2 6; UPDATE_priority 1 5; UPDATE_priority 3 1]
          ++ issued w'
      ∧ client.priority <$> table w' = [3; 1; 2; 4]
      ∧ client.priority <$> table w = [3; 1; 1; 4].
Proof.
  split; [reflexivity|].
  eexists. eexists.
  split; [vm_compute; reflexivity|]. split; [vm_compute; reflexivity|].
  repeat split.
Qed.

(** C3: on the lane A1, B2, C3 the request to move A to priority 3 that
    omits the status finds no occupant in the slots 3 and 2: B and C keep
    their priorities, where the rotation of the specification lowers
    them by one. *)
Theorem priority_only_without_status_shifts_nobody :
  I1 [A; B; C]
  ∧ put_client 2 [A; B; C] 1 None (Some 3)
    = Sent {| table := [client.with_priority 3 A; B; C];
              issued := [UPDATE_priority 3 1] |}
  ∧ rotate_row 1 "backlog" 1 3 <$> [A; B; C]
    = [client.with_priority 3 A; client.with_priority 1 B; client.with_priority 2 C].
Proof.
  split; [exact I1_backlog|]. split; vm_compute; reflexivity.
Qed.

(** C5: moving A from slot 1 of backlog to slot 3 of the lane D1, E2, F3
    also rewrites E, a client of the new lane above slot 3, to priority
    1, where the insertion of the specification leaves it at 2. *)
Theorem insertion_below_old_rank_rewrites_others :
  ∃ w, put_client 2 [A; D; E; F] 1 (Some "in-progress") (Some 3) = Sent w
     ∧ table w
       = [client.make 1 "A" "in-progress" 3; D;
          client.with_priority 1 E; client.with_priority 4 F]
     ∧ insert_row 1 "backlog" 1 "in-progress" 3 <$> [A; D; E; F]
       = [client.make 1 "A" "in-progress" 3; D; E; client.with_priority 4 F].
Proof.
  eexists. split; [vm_compute; reflexivity|]. split; vm_compute; reflexivity.
Qed.

(** * Further properties of the handler *)

(** ** Which rows a request writes to *)

Lemma update_row_untouched q r :
  statement_id q ≠ client.id r → update_row q r = r.
Proof.
  intros Hne. destruct q; simpl in *; by rewrite bool_decide_eq_false_2.
Qed.

Lemma row_after_untouched qs r :
  Forall (λ q, statement_id q ≠ client.id r) qs → row_after qs r = r.
Proof.
  induction 1 as [|q qs Hq _ IH]; [done|].
  by rewrite row_after_cons, update_row_untouched.
Qed.

Lemma update_row_status id q r :
  status_only_of id q → client.id r ≠ id →
  client.status (update_row q r) = client.status r.
Proof.
  intros Hq Hr. destruct q; simpl in *.
  - by case_bool_decide.
  - subst. by rewrite bool_decide_eq_false_2.
Qed.

Lemma row_after_status id qs r :
  Forall (status_only_of id) qs → client.id r ≠ id →
  client.status (row_after qs r) = client.status r.
Proof.
  intros Hqs. revert r. induction Hqs as [|q qs Hq _ IH]; intros r Hr; [done|].
  rewrite row_after_cons, IH by (by rewrite update_row_id).
  by apply (update_row_status id).
Qed.

Lemma shift_statements_occupants step clients status cur n :
  Forall (λ q, priority_statement q
               ∧ ∃ m, m ∈ clients ∧ client.id m = statement_id q
                      ∧ Some (client.status m) = status)
         (shift_statements step clients status cur n).
Proof.
  revert cur. induction n as [|n IH]; intros cur; simpl; [constructor|].
  apply Forall_app. split; [|apply IH].
  destruct (occupant clients status cur) as [[i m]|] eqn:Hocc; [|constructor].
  apply occupant_Some in Hocc as (Hm & _ & Hs).
  repeat constructor. by exists m.
Qed.

Lemma for_statements_rows test step l :
  Forall (λ q, priority_statement q
               ∧ ∃ a, a ∈ l ∧ test a = true ∧ client.id a = statement_id q)
         (for_statements test step l).
Proof.
  induction l as [|c l IH]; [constructor|].
  rewrite for_statements_cons. apply Forall_app. split.
  - destruct (test c) eqn:Htest; repeat constructor.
    exists c. split; [by left|done].
  - eapply Forall_impl; [exact IH|]. intros q [? (a & ? & ? & ?)].
    split; [done|]. exists a. split; [by right|done].
Qed.

Lemma priority_statement_status id q : priority_statement q → status_only_of id q.
Proof. by destruct q. Qed.

Lemma run_row_after q qs (db : list client.t) :
  run q (row_after qs <$> db) = row_after (qs ++ [q]) <$> db.
Proof.
  unfold run. rewrite <- list_fmap_compose. apply list_fmap_ext.
  intros i r _. simpl. by rewrite row_after_app.
Qed.

Lemma row_after_row_after qs1 qs2 (db : list client.t) :
  row_after qs2 <$> (row_after qs1 <$> db) = row_after (qs1 ++ qs2) <$> db.
Proof.
  rewrite <- list_fmap_compose. apply list_fmap_ext.
  intros i r _. simpl. by rewrite row_after_app.
Qed.

Lemma truthy_status_default status :
  truthy_status status = true → status = Some (default "" status).
Proof. by destruct status. Qed.

(** The pull-up loop reads the refreshed table: it writes to rows of the
    target's old lane, found there by their unchanged status. *)
Lemma pull_up_scope db c id status O step qs :
  c ∈ db → client.id c = id →
  Forall (status_only_of id) qs →
  Forall (λ q, priority_statement q ∧ involved db c status (statement_id q))
         (for_statements (below_in (client.status c) O) step (row_after qs <$> db)).
Proof.
  intros Hc Hid Hqs.
  eapply Forall_impl; [apply for_statements_rows|].
  intros q [Hq (a & Ha & Htest & Hida)]. split; [done|].
  apply list_elem_of_fmap in Ha as (r & -> & Hr).
  rewrite row_after_id in Hida. exists r. split; [done|]. split; [done|].
  destruct (decide (client.id r = id)) as [Hr1|Hr1]; [left; congruence|].
  right. left. rewrite <- (row_after_status id qs r Hqs Hr1).
  unfold below_in in Htest. apply andb_true_iff in Htest as [_ Hs].
  by apply bool_decide_eq_true in Hs.
Qed.

(** The push-down loop reads the array in which the target already has
    its new status: it writes to the target and to rows of the new
    lane. *)
Lemma push_down_scope db k c L P :
  db !! k = Some c →
  Forall (λ q, priority_statement q ∧ involved db c (Some L) (statement_id q))
         (for_statements (at_or_below_in L P) 1 (<[k := client.with_status L c]> db)).
Proof.
  intros Hk.
  eapply Forall_impl; [apply for_statements_rows|].
  intros q [Hq (a & Ha & Htest & Hida)]. split; [done|].
  apply list_elem_of_lookup in Ha as [j Hj].
  apply list_lookup_insert_Some in Hj as [(-> & <- & _)|[_ Hj]].
  - exists c. split; [by eapply list_elem_of_lookup_2|]. split; [done|by left].
  - exists a. split; [by eapply list_elem_of_lookup_2|]. split; [done|].
    right. right. unfold at_or_below_in in Htest.
    apply andb_true_iff in Htest as [_ Hs]. apply bool_decide_eq_true in Hs.
    by rewrite Hs.
Qed.

(** Every statement of a request is addressed to the target, to a row of
    its lane or to a row of the lane the request names, and only the
    target is given a status. *)
Lemma request_statements_scope db k c id status priority :
  target db id = Some (k, c) →
  Forall (λ q, status_only_of id q ∧ involved db c status (statement_id q))
         (request_statements db k c id status priority).
Proof.
  intros Ht. destruct (target_Some _ _ _ _ Ht) as [Hk Hid].
  assert (c ∈ db) as Hc by (by eapply list_elem_of_lookup_2).
  assert (involved db c status id) as Hinv.
  { exists c. split; [done|]. split; [done|by left]. }
  unfold request_statements. cbv zeta.
  set (sc := truthy_status status && bool_decide (status ≠ Some (client.status c))).
  set (pc := truthy_priority priority && bool_decide (priority ≠ Some (client.priority c))).
  set (qs1 := if pc then _ else []).
  assert (Forall (λ q, priority_statement q ∧ involved db c status (statement_id q)) qs1)
    as H1.
  { unfold qs1. destruct pc; [|constructor].
    apply Forall_app. split.
    - eapply Forall_impl; [apply shift_statements_occupants|].
      intros q [Hq (m & Hm & Hidm & Hs)]. split; [done|].
      exists m. split; [done|]. split; [done|]. by right; right.
    - repeat constructor. simpl. by rewrite Hid. }
  assert (Forall (status_only_of id) qs1) as H1s.
  { eapply Forall_impl; [exact H1|]. intros q [Hq _].
    by apply priority_statement_status. }
  set (qs2 := if sc && negb (truthy_priority priority) then _ else []).
  assert (Forall (λ q, status_only_of id q ∧ involved db c status (statement_id q)) qs2)
    as H2.
  { unfold qs2. destruct (sc && negb (truthy_priority priority)); [|constructor].
    constructor; [by split|].
    rewrite run_row_after.
    eapply Forall_impl; [apply (pull_up_scope db c id)|]; [done..| |].
    - apply Forall_app. split; [done|]. by repeat constructor.
    - intros q [Hq ?]. split; [by apply priority_statement_status|done]. }
  assert (Forall (status_only_of id) (qs1 ++ qs2)) as H12s.
  { apply Forall_app. split; [done|].
    eapply Forall_impl; [exact H2|]. by intros q [? _]. }
  apply Forall_app. split.
  { eapply Forall_impl; [exact H1|]. intros q [Hq ?].
    split; [by apply priority_statement_status|done]. }
  apply Forall_app. split; [done|].
  destruct (sc && truthy_priority priority) eqn:H3; [|constructor].
  assert (status = Some (default "" status)) as Hst.
  { apply truthy_status_default. unfold sc in H3.
    by destruct (truthy_status status). }
  unfold status_priority_statements. cbv zeta.
  set (push := for_statements _ 1 _).
  assert (Forall (λ q, status_only_of id q ∧ involved db c status (statement_id q)) push)
    as Hpush.
  { unfold push.
    eapply Forall_impl; [by apply push_down_scope|].
    intros q [Hq H]. rewrite <- Hst in H.
    split; [by apply priority_statement_status|done]. }
  apply Forall_app. split.
  { apply Forall_app. split; [done|]. by repeat constructor. }
  rewrite row_after_row_after.
  eapply Forall_impl; [apply (pull_up_scope db c id)|]; [done..| |].
  - apply Forall_app. split; [done|]. apply Forall_app. split.
    + eapply Forall_impl; [exact Hpush|]. by intros q [? _].
    + by repeat constructor.
  - intros q [Hq ?]. split; [by apply priority_statement_status|done].
Qed.

(** ** Lanes the request does not involve *)

(** X1: on a table with unique identifiers, a client whose lane is
    neither the target's nor the one the request names is left as it
    was, whatever the request. *)
Theorem other_lanes_untouched fuel db id status priority k c i r :
  unique_ids db →
  target db id = Some (k, c) →
  (shift_iterations (client.priority c) priority ≤ fuel)%nat →
  db !! i = Some r →
  client.status r ≠ client.status c →
  Some (client.status r) ≠ status →
  ∃ w, put_client fuel db id status priority = Sent w ∧ table w !! i = Some r.
Proof.
  intros Hnd Ht Hfuel Hi Hs1 Hs2.
  rewrite (put_client_table _ _ _ _ _ k c Ht Hfuel).
  eexists. split; [reflexivity|]. simpl.
  rewrite list_lookup_fmap, Hi. simpl. f_equal.
  assert (r ∈ db) as Hr by (by eapply list_elem_of_lookup_2).
  apply row_after_untouched.
  eapply Forall_impl; [by apply request_statements_scope|].
  intros q [_ (m & Hm & Hidm & Hcases)] Heq. simpl in *.
  assert (m = r) as -> by (apply (unique_ids_eq db); [done..|congruence]).
  destruct Hcases as [Hc|[Hc|Hc]]; [|done..].
  destruct (target_Some _ _ _ _ Ht) as [Hk _].
  assert (r = c) as -> by (apply (unique_ids_eq db); [done| |by eapply list_elem_of_lookup_2|done]; done).
  done.
Qed.

Lemma other_lanes_untouched_witness :
  ∃ w, put_client 2 [A; B; C; D; E; F; client.make 7 "G" "complete" 1] 1
         (Some "in-progress") (Some 3) = Sent w
     ∧ table w !! 6%nat = Some (client.make 7 "G" "complete" 1).
Proof.
  apply (other_lanes_untouched 2 _ 1 (Some "in-progress") (Some 3) 0%nat A 6%nat).
  - unfold unique_ids. compute_done.
  - reflexivity.
  - change (2 ≤ 2)%nat. lia.
  - reflexivity.
  - discriminate.
  - discriminate.
Defined.

(** X2: no request changes the status of a client other than the
    target. *)
Theorem only_the_target_changes_lane fuel db id status priority k c :
  target db id = Some (k, c) →
  (shift_iterations (client.priority c) priority ≤ fuel)%nat →
  ∃ w, put_client fuel db id status priority = Sent w
     ∧ ∀ i r, db !! i = Some r → client.id r ≠ id →
         ∃ r', table w !! i = Some r' ∧ client.status r' = client.status r.
Proof.
  intros Ht Hfuel.
  rewrite (put_client_table _ _ _ _ _ k c Ht Hfuel).
  eexists. split; [reflexivity|]. simpl. intros i r Hi Hr.
  rewrite list_lookup_fmap, Hi. simpl. eexists. split; [reflexivity|].
  apply (row_after_status id); [|done].
  eapply Forall_impl; [by apply request_statements_scope|]. by intros q [? _].
Qed.

Lemma only_the_target_changes_lane_witness :
  ∃ w, put_client 2 [A; D; E; F] 1 (Some "in-progress") (Some 3) = Sent w
     ∧ ∀ i r, [A; D; E; F] !! i = Some r → client.id r ≠ 1 →
         ∃ r', table w !! i = Some r' ∧ client.status r' = client.status r.
Proof.
  apply (only_the_target_changes_lane 2 [A; D; E; F] 1 (Some "in-progress")
           (Some 3) 0%nat A).
  - reflexivity.
  - change (2 ≤ 2)%nat. lia.
Defined.

(** ** Where the target ends *)

Lemma row_after_priority_only qs r :
  Forall priority_statement qs → ∃ q, row_after qs r = client.with_priority q r.
Proof.
  intros Hqs. revert r. induction Hqs as [|q qs Hq _ IH]; intros r.
  - exists (client.priority r). by rewrite row_after_nil, with_priority_same.
  - rewrite row_after_cons. destruct (IH (update_row q r)) as [p ->].
    exists p. destruct q as [p' i|]; [|done]. simpl. by case_bool_decide.
Qed.

Lemma final_status_unchanged c status :
  truthy_status status && bool_decide (status ≠ Some (client.status c)) = false →
  final_status c status = client.status c.
Proof.
  unfold final_status. destruct (truthy_status status) eqn:Htr; [|done].
  simpl. intros H%bool_decide_eq_false. apply dec_stable in H. by rewrite H.
Qed.

Lemma final_status_changed c status :
  truthy_status status && bool_decide (status ≠ Some (client.status c)) = true →
  final_status c status = default "" status
  ∧ default "" status ≠ client.status c
  ∧ default "" status ≠ "".
Proof.
  unfold final_status. destruct status as [L|]; [|done]. simpl.
  destruct (String.eqb_spec L ""); [done|]. simpl.
  intros H%bool_decide_eq_true. split; [done|]. split; [congruence|done].
Qed.

Lemma make_eta r s p :
  client.with_status s (client.with_priority p r)
  = client.make (client.id r) (client.extra r) s p.
Proof. reflexivity. Qed.

(** The target's row after a request with a usable priority [P]: the
    move writes it last among the statements addressed to it. *)
Lemma target_row_with_priority db id k c status P :
  target db id = Some (k, c) → P ≠ 0 →
  row_after (request_statements db k c id status (Some P)) c
  = client.make (client.id c) (client.extra c) (final_status c status) P.
Proof.
  intros Ht HP. destruct (target_Some _ _ _ _ Ht) as [Hk Hid].
  unfold request_statements. cbv zeta.
  rewrite (truthy_priority_Some P HP). change (default 0 (Some P)) with P.
  set (pc := true && bool_decide (Some P ≠ Some (client.priority c))).
  set (qs1 := if pc then _ else []).
  assert (row_after qs1 c = if pc then client.with_priority P c else c) as H1.
  { unfold qs1. destruct pc; [|done].
    rewrite row_after_app, row_after_one.
    destruct (row_after_priority_only
                (shift_statements
                   (if bool_decide (client.priority c > P) then 1 else -1)
                   db status P (Z.abs_nat (P - client.priority c))) c) as [q ->].
    { eapply Forall_impl; [apply shift_statements_occupants|]. by intros ? [? _]. }
    simpl. by rewrite bool_decide_eq_true_2. }
  destruct (truthy_status status && _) eqn:Hsc; cbn [andb negb].
  - destruct (final_status_changed c status Hsc) as (-> & HS & HL).
    set (L := default "" status) in *.
    unfold status_priority_statements. cbv zeta.
    rewrite !app_nil_l, !app_nil_r.
    set (push := for_statements _ 1 _).
    set (move := UPDATE_status_priority L P id).
    rewrite !row_after_app, row_after_one.
    assert (update_row move (row_after push (row_after qs1 c))
            = client.make (client.id c) (client.extra c) L P) as ->.
    { unfold move. simpl.
      rewrite !row_after_id, (bool_decide_eq_true_2 _ Hid), make_eta.
      by rewrite !row_after_id, !row_after_extra. }
    apply row_after_untouched.
    eapply Forall_impl; [apply for_statements_rows|].
    intros q [_ (a & Ha & Htest & Hida)] Heq. simpl in Heq.
    apply list_elem_of_fmap in Ha as (x & -> & Hx).
    rewrite row_after_app, row_after_one in Htest, Hida.
    rewrite update_row_id in Hida.
    unfold move in Htest. simpl in Htest.
    assert (client.id (row_after push x) = id) as Hx' by congruence.
    unfold below_in in Htest. simpl in Htest.
    rewrite (bool_decide_eq_true_2 _ Hx') in Htest. simpl in Htest.
    apply andb_true_iff in Htest as [_ Hs]. by apply bool_decide_eq_true in Hs.
  - rewrite app_nil_l, app_nil_r, H1.
    rewrite (final_status_unchanged c status Hsc).
    unfold pc. simpl. clear Hsc.
    destruct (decide (P = client.priority c)) as [->|HPO].
    + rewrite bool_decide_eq_false_2 by (intros H; by apply H). by destruct c.
    + rewrite bool_decide_eq_true_2 by congruence. done.
Qed.

Lemma get_by_id_target db id : get_by_id db id = snd <$> target db id.
Proof.
  unfold get_by_id, target. induction db as [|r db IH]; [done|].
  rewrite filter_cons. simpl. case_decide; [done|].
  rewrite IH. by destruct (list_find _ db) as [[? ?]|].
Qed.

Lemma target_fmap f db id k c :
  (∀ r, client.id (f r) = client.id r) →
  target db id = Some (k, c) → target (f <$> db) id = Some (k, f c).
Proof.
  intros Hf Ht. unfold target in *. rewrite list_find_fmap.
  erewrite list_find_ext; [rewrite Ht; done|].
  intros r. simpl. by rewrite Hf.
Qed.

Lemma get_client_found db id k c :
  target db id = Some (k, c) →
  get_client db (Some id) = [{| code := 200; sent := Client (Some c) |}].
Proof.
  intros Ht. unfold get_client, validateId. simpl.
  by rewrite get_by_id_target, Ht.
Qed.

(** X3: on a table whose priorities are safe integers, a request with a
    usable safe priority P on an existing client leaves that client at
    priority P, in the lane the request names if it names one, and a GET
    of the client then returns it so. *)
Theorem target_ends_where_requested fuel db id status P k c :
  safe_priorities db → safe_integer P →
  target db id = Some (k, c) → P ≠ 0 →
  (Z.abs_nat (P - client.priority c) ≤ fuel)%nat →
  ∃ w, put_client fuel db id status (Some P) = Sent w
     ∧ table w !! k
       = Some (client.make (client.id c) (client.extra c) (final_status c status) P)
     ∧ get_client (table w) (Some id)
       = [{| code := 200;
             sent := Client (Some (client.make (client.id c) (client.extra c)
                                     (final_status c status) P)) |}].
Proof.
  intros _ _ Ht HP Hfuel. destruct (target_Some _ _ _ _ Ht) as [Hk Hid].
  rewrite (put_client_table _ _ _ _ _ k c Ht)
    by (unfold shift_iterations; rewrite truthy_priority_Some by done; exact Hfuel).
  eexists. split; [reflexivity|]. simpl table.
  rewrite <- (target_row_with_priority db id k c status P Ht HP). split.
  - by rewrite list_lookup_fmap, Hk.
  - apply (get_client_found _ _ k), target_fmap; [apply row_after_id|done].
Qed.

Lemma target_ends_where_requested_witness :
  ∃ w, put_client 2 [A; D; E; F] 1 (Some "in-progress") (Some 3) = Sent w
     ∧ table w !! 0%nat = Some (client.make 1 "A" "in-progress" 3)
     ∧ get_client (table w) (Some 1)
       = [{| code := 200; sent := Client (Some (client.make 1 "A" "in-progress" 3)) |}].
Proof.
  apply (target_ends_where_requested 2 [A; D; E; F] 1 (Some "in-progress") 3 0%nat A).
  - unfold safe_priorities. compute_done.
  - compute_done.
  - reflexivity.
  - lia.
  - change (2 ≤ 2)%nat. lia.
Defined.

(** ** Lane sizes *)

Lemma target_status_after db id k c status priority :
  target db id = Some (k, c) →
  client.status (row_after (request_statements db k c id status priority) c)
  = final_status c status.
Proof.
  intros Ht. destruct (target_Some _ _ _ _ Ht) as [Hk Hid].
  destruct (truthy_priority priority) eqn:Hp.
  { destruct priority as [P|]; [|done].
    rewrite (target_row_with_priority db id k c status P Ht); [done|].
    simpl in Hp. by destruct (Z.eqb_spec P 0). }
  destruct (truthy_status status && bool_decide (status ≠ Some (client.status c)))
    eqn:Hsc.
  - destruct (final_status_changed c status Hsc) as (-> & HS & HL).
    destruct (status_only_target_row 0 db id k c (default "" status) priority
                Ht HL HS Hp) as (w & Hw & Hrow).
    assert (status = Some (default "" status)) as Hst.
    { apply truthy_status_default. by destruct (truthy_status status). }
    rewrite <- Hst in Hw.
    rewrite (put_client_table _ _ _ _ _ k c Ht) in Hw
      by (unfold shift_iterations; rewrite Hp; lia).
    injection Hw as <-. simpl in Hrow.
    rewrite list_lookup_fmap, Hk in Hrow. simpl in Hrow.
    injection Hrow as ->. done.
  - rewrite (final_status_unchanged c status Hsc).
    unfold request_statements. cbv zeta. by rewrite Hsc, Hp.
Qed.

(** X4: on a table with unique identifiers, a request changes the size
    of a lane only by moving the target: the lane it leaves has one
    client less, the lane it enters one more, and every other lane, or
    every lane when the target stays, keeps its size. *)
Theorem lane_sizes fuel db id status priority k c s :
  unique_ids db →
  target db id = Some (k, c) →
  (shift_iterations (client.priority c) priority ≤ fuel)%nat →
  ∃ w, put_client fuel db id status priority = Sent w
     ∧ (length (lane s (table w))
        + (if decide (client.status c = s) then 1 else 0)
        = length (lane s db)
          + (if decide (final_status c status = s) then 1 else 0))%nat.
Proof.
  intros Hnd Ht Hfuel. destruct (target_Some _ _ _ _ Ht) as [Hk Hid].
  rewrite (put_client_table _ _ _ _ _ k c Ht Hfuel).
  eexists. split; [reflexivity|]. simpl table.
  apply (lane_length_moved _ s db id c); [done| |done| |].
  - by eapply list_elem_of_lookup_2.
  - intros r Hr Hne. apply (row_after_status id); [|done].
    eapply Forall_impl; [by apply request_statements_scope|]. by intros q [? _].
  - by apply target_status_after.
Qed.

Lemma lane_sizes_witness :
  ∃ w, put_client 2 [A; B; C; D; E; F] 1 (Some "in-progress") (Some 3) = Sent w
     ∧ (length (lane "backlog" (table w))
        + (if decide (client.status A = "backlog") then 1 else 0)
        = length (lane "backlog" [A; B; C; D; E; F])
          + (if decide (final_status A (Some "in-progress") = "backlog")
             then 1 else 0))%nat.
Proof.
  apply (lane_sizes 2 [A; B; C; D; E; F] 1 (Some "in-progress") (Some 3) 0%nat A
           "backlog").
  - unfold unique_ids. compute_done.
  - reflexivity.
  - change (2 ≤ 2)%nat. lia.
Defined.

(** ** Moves the handler gets right *)

(** X5: when identifiers are unique, no two clients of a lane share a
    priority and priorities are safe integers, a request that repeats
    the client's current status and gives a new safe priority P rotates
    the lane: the clients between the new
    and the old slot move one step toward the old slot, the target takes
    P, and every other row is as it was. *)
Theorem rotation_with_status_repeated fuel db id k c P :
  unique_ids db → unique_ranks db →
  safe_priorities db → safe_integer P →
  target db id = Some (k, c) →
  P ≠ 0 → P ≠ client.priority c →
  (Z.abs_nat (P - client.priority c) ≤ fuel)%nat →
  ∃ w, put_client fuel db id (Some (client.status c)) (Some P) = Sent w
     ∧ table w = rotate_row id (client.status c) (client.priority c) P <$> db.
Proof.
  intros Hnd Huq _ _ Ht HP HO Hfuel.
  destruct (rotation_request fuel db id k c P Hnd Huq Ht HP HO Hfuel) as [qs Hqs].
  eexists. split; [exact Hqs|done].
Qed.

Lemma rotation_with_status_repeated_witness :
  ∃ w, put_client 2 [A; B; C] 1 (Some (client.status A)) (Some 3) = Sent w
     ∧ table w = rotate_row 1 (client.status A) (client.priority A) 3 <$> [A; B; C].
Proof.
  apply (rotation_with_status_repeated 2 [A; B; C] 1 0%nat A 3).
  - unfold unique_ids. compute_done.
  - apply I1_unique_ranks, I1_backlog.
  - unfold safe_priorities. compute_done.
  - compute_done.
  - reflexivity.
  - lia.
  - change (3 ≠ 1). lia.
  - change (2 ≤ 2)%nat. lia.
Defined.

(** X6: under the same conditions, a request that names another lane
    L and a safe priority P at most one more than the client's old
    priority
    inserts the client at P in L: the clients of L at P or below move
    down by one, the clients of the old lane below the old slot move up
    by one, and every other row is as it was. *)
Theorem insertion_at_or_above_old_rank fuel db id k c L P :
  unique_ids db → unique_ranks db →
  safe_priorities db → safe_integer P →
  target db id = Some (k, c) →
  L ≠ "" → L ≠ client.status c →
  P ≠ 0 → P ≤ client.priority c + 1 →
  (Z.abs_nat (P - client.priority c) ≤ fuel)%nat →
  ∃ w, put_client fuel db id (Some L) (Some P) = Sent w
     ∧ table w
       = insert_row id (client.status c) (client.priority c) L P <$> db.
Proof.
  intros Hnd Huq _ _ Ht HL HS HP HPO Hfuel.
  destruct (insertion_request fuel db id k c L P Hnd Huq Ht HL HS HP HPO Hfuel)
    as [qs Hqs].
  eexists. split; [exact Hqs|done].
Qed.

Lemma insertion_at_or_above_old_rank_witness :
  ∃ w, put_client 2 [A; B; C; D; E; F] 3 (Some "in-progress") (Some 1) = Sent w
     ∧ table w
       = insert_row 3 (client.status C) (client.priority C) "in-progress" 1
           <$> [A; B; C; D; E; F].
Proof.
  apply (insertion_at_or_above_old_rank 2 [A; B; C; D; E; F] 3 2%nat C
           "in-progress" 1).
  - unfold unique_ids. compute_done.
  - apply I1_unique_ranks, I1_decide; compute_done.
  - unfold safe_priorities. compute_done.
  - compute_done.
  - reflexivity.
  - discriminate.
  - discriminate.
  - lia.
  - change (1 ≤ 3 + 1). lia.
  - change (2 ≤ 2)%nat. lia.
Defined.

(** X7: unless the request changes both the status and the priority of
    the client, the handler does what the one selected case of the four
    does and nothing else. *)
Theorem one_case_when_one_field_changes fuel db id status priority k c :
  target db id = Some (k, c) →
  ¬ (truthy_status status && bool_decide (status ≠ Some (client.status c)) = true
     ∧ truthy_priority priority
       && bool_decide (priority ≠ Some (client.priority c)) = true) →
  put_client fuel db id status priority = reorder_one_case fuel db id status priority.
Proof. apply one_case_unless_both. Qed.

Lemma one_case_when_one_field_changes_witness :
  put_client 2 [A; B; C] 1 (Some "backlog") (Some 3)
  = reorder_one_case 2 [A; B; C] 1 (Some "backlog") (Some 3).
Proof.
  apply (one_case_when_one_field_changes 2 [A; B; C] 1 (Some "backlog") (Some 3)
           0%nat A).
  - reflexivity.
  - intros [H _]. vm_compute in H. discriminate H.
Defined.

(** ** Requests with nothing to do *)

(** X8: a request in which the status is absent, empty or the client's
    current one, and the priority is absent, 0 or the client's current
    one, issues no statement and answers with the table as it was. *)
Theorem unusable_request_changes_nothing fuel db id status priority k c :
  target db id = Some (k, c) →
  truthy_status status = false ∨ status = Some (client.status c) →
  truthy_priority priority = false ∨ priority = Some (client.priority c) →
  put_client fuel db id status priority = Sent {| table := db; issued := [] |}.
Proof.
  intros Ht Hs Hp. apply (put_client_no_op _ _ _ _ _ k c Ht).
  unfold classify. cbv zeta.
  assert (truthy_status status && bool_decide (status ≠ Some (client.status c))
          = false) as ->.
  { destruct Hs as [->| ->]; [done|].
    rewrite bool_decide_eq_false_2 by (intros H; by apply H). apply andb_false_r. }
  assert (truthy_priority priority
          && bool_decide (priority ≠ Some (client.priority c)) = false) as ->.
  { destruct Hp as [->| ->]; [done|].
    rewrite bool_decide_eq_false_2 by (intros H; by apply H). apply andb_false_r. }
  done.
Qed.

Lemma unusable_request_changes_nothing_witness :
  put_client 0 [A; B; C] 2 (Some "") (Some 0)
  = Sent {| table := [A; B; C]; issued := [] |}.
Proof.
  apply (unusable_request_changes_nothing 0 [A; B; C] 2 (Some "") (Some 0) 1%nat B).
  - reflexivity.
  - by left.
  - by left.
Defined.

(** ** The number of statements *)

Lemma shift_statements_length step clients status cur n :
  (length (shift_statements step clients status cur n) ≤ n)%nat.
Proof.
  revert cur. induction n as [|n IH]; intros cur; simpl; [done|].
  rewrite length_app. specialize (IH (cur + step)).
  destruct (occupant clients status cur) as [[? ?]|]; simpl; lia.
Qed.

(** X9: on a table whose priorities are safe integers, a request with a
    safe priority, or none, that leaves the client in its lane issues at
    most one UPDATE per slot between the old and the new priority, and
    one for the client. *)
Theorem same_lane_statement_bound fuel db id status priority k c :
  safe_priorities db →
  (∀ P, priority = Some P → safe_integer P) →
  target db id = Some (k, c) →
  truthy_status status = false ∨ status = Some (client.status c) →
  (shift_iterations (client.priority c) priority ≤ fuel)%nat →
  ∃ w, put_client fuel db id status priority = Sent w
     ∧ (length (issued w) ≤ shift_iterations (client.priority c) priority + 1)%nat.
Proof.
  intros _ _ Ht Hs Hfuel.
  rewrite (put_client_table _ _ _ _ _ k c Ht Hfuel).
  eexists. split; [reflexivity|]. simpl issued.
  unfold request_statements, shift_iterations. cbv zeta.
  assert (truthy_status status && bool_decide (status ≠ Some (client.status c))
          = false) as ->.
  { destruct Hs as [->| ->]; [done|].
    rewrite bool_decide_eq_false_2 by (intros H; by apply H). apply andb_false_r. }
  cbn [andb]. rewrite !app_nil_r.
  destruct (truthy_priority priority); cbn [andb]; [|simpl; lia].
  destruct (bool_decide _); [|simpl; lia].
  rewrite length_app. simpl.
  pose proof (shift_statements_length
                (if bool_decide (client.priority c > default 0 priority) then 1 else -1)
                db status (default 0 priority)
                (Z.abs_nat (default 0 priority - client.priority c))).
  lia.
Qed.

Lemma same_lane_statement_bound_witness :
  ∃ w, put_client 6 [A; B; C] 1 (Some "backlog") (Some 7) = Sent w
     ∧ (length (issued w) ≤ shift_iterations (client.priority A) (Some 7%Z) + 1)%nat.
Proof.
  apply (same_lane_statement_bound 6 [A; B; C] 1 (Some "backlog") (Some 7) 0%nat A).
  - unfold safe_priorities. compute_done.
  - intros P [= <-]. compute_done.
  - reflexivity.
  - by right.
  - change (6 ≤ 6)%nat. lia.
Defined.

(** ** Moving a client and moving it back *)

Lemma rotate_row_back db id c P r :
  unique_ids db → unique_ranks db →
  c ∈ db → client.id c = id → r ∈ db →
  rotate_row id (client.status c) P (client.priority c)
    (rotate_row id (client.status c) (client.priority c) P r) = r.
Proof.
  intros Hnd Huq Hc Hid Hr.
  pose proof (Huq r c Hr Hc) as Hrc.
  destruct (decide (client.id r = id)) as [Hrid|Hrid].
  { assert (r = c) as -> by (apply (unique_ids_eq db); [done..|congruence]).
    unfold rotate_row. rewrite (bool_decide_eq_true_2 _ Hid). simpl.
    rewrite (bool_decide_eq_true_2 _ Hid). by destruct c. }
  assert (client.status r = client.status c →
          client.priority r ≠ client.priority c) as Hne.
  { intros Hs Hp. apply Hrid. rewrite (Hrc Hs Hp). done. }
  unfold rotate_row at 2. rewrite (bool_decide_eq_false_2 _ Hrid).
  destruct (decide (client.status r = client.status c)) as [Hs|Hs].
  2:{ rewrite !bool_decide_eq_false_2 by tauto.
      unfold rotate_row. rewrite (bool_decide_eq_false_2 _ Hrid).
      by rewrite !bool_decide_eq_false_2 by tauto. }
  specialize (Hne Hs).
  destruct (decide (P ≤ client.priority r < client.priority c)) as [H1|H1].
  { rewrite bool_decide_eq_true_2 by done.
    unfold rotate_row. simpl. rewrite (bool_decide_eq_false_2 _ Hrid).
    rewrite bool_decide_eq_false_2 by lia.
    rewrite bool_decide_eq_true_2 by (split; [done|lia]).
    replace (client.priority r + 1 - 1) with (client.priority r) by lia.
    by rewrite with_priority_twice, with_priority_same. }
  rewrite (bool_decide_eq_false_2 (_ ∧ P ≤ _ < _)) by tauto.
  destruct (decide (client.priority c < client.priority r ≤ P)) as [H2|H2].
  { rewrite bool_decide_eq_true_2 by done.
    unfold rotate_row. simpl. rewrite (bool_decide_eq_false_2 _ Hrid).
    rewrite bool_decide_eq_true_2 by (split; [done|lia]).
    replace (client.priority r - 1 + 1) with (client.priority r) by lia.
    by rewrite with_priority_twice, with_priority_same. }
  rewrite (bool_decide_eq_false_2 (_ ∧ _ < _ ≤ P)) by tauto.
  unfold rotate_row. rewrite (bool_decide_eq_false_2 _ Hrid).
  by rewrite !bool_decide_eq_false_2 by lia.
Qed.

(** X10: on a table with unique identifiers that satisfies I1, moving a
    client to another slot of its lane, with the lane named in the
    request, and then back to its old slot returns the table as it
    was. *)
Theorem move_and_back fuel db id k c P :
  unique_ids db → I1 db →
  target db id = Some (k, c) →
  1 ≤ P ≤ Z.of_nat (length (lane (client.status c) db)) →
  P ≠ client.priority c →
  (Z.abs_nat (P - client.priority c) ≤ fuel)%nat →
  ∃ w1 w2,
    put_client fuel db id (Some (client.status c)) (Some P) = Sent w1
    ∧ put_client fuel (table w1) id (Some (client.status c))
        (Some (client.priority c)) = Sent w2
    ∧ table w2 = db.
Proof.
  intros Hnd HI Ht HP HPO Hfuel.
  destruct (target_Some _ _ _ _ Ht) as [Hk Hid].
  assert (c ∈ db) as Hc by (by eapply list_elem_of_lookup_2).
  pose proof (I1_unique_ranks db HI) as Huq.
  pose proof (I1_ranked db HI c Hc) as HO.
  destruct (rotation_request fuel db id k c P Hnd Huq Ht) as [qs1 H1];
    [lia|done|done|].
  set (f := rotate_row id (client.status c) (client.priority c) P) in *.
  assert (f c = client.with_priority P c) as Hfc.
  { unfold f, rotate_row. by rewrite (bool_decide_eq_true_2 _ Hid). }
  assert (target (f <$> db) id = Some (k, client.with_priority P c)) as Ht1.
  { rewrite <- Hfc. apply target_fmap; [apply rotate_row_id|done]. }
  destruct (rotation_request fuel (f <$> db) id k (client.with_priority P c)
              (client.priority c)) as [qs2 H2].
  - apply unique_ids_fmap; [apply rotate_row_id|done].
  - apply I1_unique_ranks. by apply (I1_rotate db id k c P).
  - done.
  - lia.
  - simpl. lia.
  - simpl. lia.
  - eexists. eexists. split; [exact H1|]. split; [exact H2|]. simpl.
    rewrite <- list_fmap_compose.
    transitivity (@Datatypes.id client.t <$> db); [|apply list_fmap_id].
    apply list_fmap_ext. intros i r Hr. simpl.
    apply (rotate_row_back db); [done..|by eapply list_elem_of_lookup_2].
Qed.

Lemma move_and_back_witness :
  ∃ w1 w2,
    put_client 2 [A; B; C] 1 (Some (client.status A)) (Some 3) = Sent w1
    ∧ put_client 2 (table w1) 1 (Some (client.status A))
        (Some (client.priority A)) = Sent w2
    ∧ table w2 = [A; B; C].
Proof.
  apply (move_and_back 2 [A; B; C] 1 0%nat A 3).
  - unfold unique_ids. compute_done.
  - exact I1_backlog.
  - reflexivity.
  - change (1 ≤ 3 ≤ 3). lia.
  - change (3 ≠ 1). lia.
  - change (2 ≤ 2)%nat. lia.
Defined.

(** ** The order of the other clients *)

Lemma rotate_row_order db id c P r1 r2 :
  unique_ranks db → c ∈ db → client.id c = id →
  r1 ∈ db → r2 ∈ db →
  client.id r1 ≠ id → client.id r2 ≠ id →
  client.status r1 = client.status r2 →
  client.priority r1 < client.priority r2 →
  client.priority (rotate_row id (client.status c) (client.priority c) P r1)
  < client.priority (rotate_row id (client.status c) (client.priority c) P r2).
Proof.
  intros Huq Hc Hid Hr1 Hr2 Hi1 Hi2 Hs Hlt.
  unfold rotate_row. rewrite !(bool_decide_eq_false_2 (_ = id)) by done.
  destruct (decide (client.status r1 = client.status c)) as [Hs1|Hs1].
  - assert (client.status r2 = client.status c) as Hs2 by congruence.
    assert (client.priority r1 ≠ client.priority c) as Hn1.
    { intros Hp. apply Hi1. by rewrite (Huq r1 c Hr1 Hc Hs1 Hp). }
    assert (client.priority r2 ≠ client.priority c) as Hn2.
    { intros Hp. apply Hi2. by rewrite (Huq r2 c Hr2 Hc Hs2 Hp). }
    repeat case_bool_decide; simpl; destruct_and?; lane_negs;
      first [lia | congruence].
  - assert (client.status r2 ≠ client.status c) as Hs2 by congruence.
    by rewrite !bool_decide_eq_false_2 by tauto.
Qed.

Lemma insert_row_order db id c L P r1 r2 :
  unique_ranks db → c ∈ db → client.id c = id →
  L ≠ client.status c →
  r1 ∈ db → r2 ∈ db →
  client.id r1 ≠ id → client.id r2 ≠ id →
  client.status r1 = client.status r2 →
  client.priority r1 < client.priority r2 →
  client.priority (insert_row id (client.status c) (client.priority c) L P r1)
  < client.priority (insert_row id (client.status c) (client.priority c) L P r2).
Proof.
  intros Huq Hc Hid HL Hr1 Hr2 Hi1 Hi2 Hs Hlt.
  unfold insert_row. rewrite !(bool_decide_eq_false_2 (_ = id)) by done.
  destruct (decide (client.status r1 = client.status c)) as [Hs1|Hs1].
  - assert (client.status r2 = client.status c) as Hs2 by congruence.
    assert (client.priority r1 ≠ client.priority c) as Hn1.
    { intros Hp. apply Hi1. by rewrite (Huq r1 c Hr1 Hc Hs1 Hp). }
    assert (client.priority r2 ≠ client.priority c) as Hn2.
    { intros Hp. apply Hi2. by rewrite (Huq r2 c Hr2 Hc Hs2 Hp). }
    repeat case_bool_decide; simpl; destruct_and?; lane_negs;
      first [lia | congruence].
  - assert (client.status r2 ≠ client.status c) as Hs2 by congruence.
    repeat case_bool_decide; simpl; destruct_and?; lane_negs;
      first [lia | congruence].
Qed.

(** The table after a request within range: unchanged, rotated or with
    the target inserted into another lane. *)
Lemma in_range_table fuel db id status priority k c :
  unique_ids db → I1 db →
  target db id = Some (k, c) →
  in_range db c status priority →
  (shift_iterations (client.priority c) priority ≤ fuel)%nat →
  ∃ w, put_client fuel db id status priority = Sent w
     ∧ (table w = db
        ∨ (∃ P, table w
                = rotate_row id (client.status c) (client.priority c) P <$> db)
        ∨ (∃ L P, L ≠ client.status c
                  ∧ table w
                    = insert_row id (client.status c) (client.priority c) L P <$> db)).
Proof.
  intros Hnd HI Ht Hrange Hfuel.
  pose proof (I1_unique_ranks db HI) as Huq.
  destruct (target_Some _ _ _ _ Ht) as [Hk Hid].
  assert (c ∈ db) as Hc by (by eapply list_elem_of_lookup_2).
  destruct Hrange as [status priority Hno|P HP|L priority HL HS Hp|L P HL HS HP HPO].
  - eexists. split; [by apply (put_client_no_op _ _ _ _ _ k c)|by left].
  - destruct (decide (P = client.priority c)) as [->|HPO].
    { eexists. split.
      - apply (put_client_no_op _ _ _ _ _ k c Ht), classify_same.
      - by left. }
    assert (P ≠ 0) as HP0 by lia.
    unfold shift_iterations in Hfuel. rewrite truthy_priority_Some in Hfuel by done.
    destruct (rotation_request fuel db id k c P Hnd Huq Ht HP0 HPO Hfuel) as [qs Hqs].
    eexists. split; [exact Hqs|]. right. left. by exists P.
  - destruct (status_only_request fuel db id k c L priority Hnd Ht HL HS Hp) as [qs Hqs].
    eexists. split; [exact Hqs|]. right. right. simpl.
    exists L, (maxPriority db L + 1). split; [done|].
    by apply status_only_as_insert.
  - assert (P ≠ 0) as HP0 by lia.
    unfold shift_iterations in Hfuel. rewrite truthy_priority_Some in Hfuel by done.
    destruct (insertion_request fuel db id k c L P Hnd Huq Ht HL HS HP0 HPO Hfuel)
      as [qs Hqs].
    eexists. split; [exact Hqs|]. right. right. by exists L, P.
Qed.

(** X11: on a table with unique identifiers that satisfies I1, a request
    within range keeps the order of the other clients: of two clients of
    one lane, neither the target, the one with the smaller priority
    still has the smaller priority afterwards. *)
Theorem order_of_the_others_kept fuel db id status priority k c :
  unique_ids db → I1 db →
  target db id = Some (k, c) →
  in_range db c status priority →
  (shift_iterations (client.priority c) priority ≤ fuel)%nat →
  ∃ w, put_client fuel db id status priority = Sent w
     ∧ ∀ i j r1 r2,
         db !! i = Some r1 → db !! j = Some r2 →
         client.id r1 ≠ id → client.id r2 ≠ id →
         client.status r1 = client.status r2 →
         client.priority r1 < client.priority r2 →
         ∃ r1' r2', table w !! i = Some r1' ∧ table w !! j = Some r2'
                    ∧ client.priority r1' < client.priority r2'.
Proof.
  intros Hnd HI Ht Hrange Hfuel.
  pose proof (I1_unique_ranks db HI) as Huq.
  destruct (target_Some _ _ _ _ Ht) as [Hk Hid].
  assert (c ∈ db) as Hc by (by eapply list_elem_of_lookup_2).
  destruct (in_range_table fuel db id status priority k c Hnd HI Ht Hrange Hfuel)
    as (w & Hw & Htable).
  exists w. split; [done|]. intros i j r1 r2 Hi Hj Hi1 Hi2 Hs Hlt.
  assert (r1 ∈ db) as Hr1 by (by eapply list_elem_of_lookup_2).
  assert (r2 ∈ db) as Hr2 by (by eapply list_elem_of_lookup_2).
  destruct Htable as [->|[[P ->]|(L & P & HL & ->)]].
  - by exists r1, r2.
  - eexists. eexists. rewrite !list_lookup_fmap, Hi, Hj. simpl.
    split; [done|]. split; [done|]. by apply (rotate_row_order db).
  - eexists. eexists. rewrite !list_lookup_fmap, Hi, Hj. simpl.
    split; [done|]. split; [done|]. by apply (insert_row_order db).
Qed.

Lemma order_of_the_others_kept_witness :
  ∃ w, put_client 0 [A; B; C; D] 1 (Some "in-progress") None = Sent w
     ∧ ∀ i j r1 r2,
         [A; B; C; D] !! i = Some r1 → [A; B; C; D] !! j = Some r2 →
         client.id r1 ≠ 1 → client.id r2 ≠ 1 →
         client.status r1 = client.status r2 →
         client.priority r1 < client.priority r2 →
         ∃ r1' r2', table w !! i = Some r1' ∧ table w !! j = Some r2'
                    ∧ client.priority r1' < client.priority r2'.
Proof.
  apply (order_of_the_others_kept 0 [A; B; C; D] 1 (Some "in-progress") None
           0%nat A).
  - unfold unique_ids. compute_done.
  - apply I1_decide; compute_done.
  - reflexivity.
  - apply (range_bottom [A; B; C; D] A "in-progress" None); [discriminate..|done].
  - change (0 ≤ 0)%nat. lia.
Defined.

(** * The other routes *)

(** ** Listing clients *)

Lemma get_clients_lane db s :
  s ∈ ["backlog"; "in-progress"; "complete"] →
  get_clients db (Some s) = {| code := 200; sent := Clients (lane s db) |}.
Proof.
  intros Hs. repeat (apply elem_of_cons in Hs as [->|Hs]); [done..|].
  by apply elem_of_nil in Hs.
Qed.

Lemma lanes_cover db :
  Forall (λ c, client.status c ∈ ["backlog"; "in-progress"; "complete"]) db →
  lane "backlog" db ++ lane "in-progress" db ++ lane "complete" db ≡ₚ db.
Proof.
  induction 1 as [|c db Hc _ IH]; [done|].
  rewrite !lane_cons.
  repeat (apply elem_of_cons in Hc as [->|Hc]); [..|by apply elem_of_nil in Hc];
    repeat case_decide; try discriminate; try done.
  - simpl. by rewrite IH.
  - simpl. rewrite <- Permutation_middle. by rewrite IH.
  - rewrite app_assoc, <- Permutation_middle, <- app_assoc. by rewrite IH.
Qed.

(** X12: when every client has one of the three statuses, the three
    listings by status are answered with 200 and together hold every
    client of the table exactly once. *)
Theorem listings_partition_the_table db :
  Forall (λ c, client.status c ∈ ["backlog"; "in-progress"; "complete"]) db →
  ∃ l1 l2 l3,
    get_clients db (Some "backlog") = {| code := 200; sent := Clients l1 |}
    ∧ get_clients db (Some "in-progress") = {| code := 200; sent := Clients l2 |}
    ∧ get_clients db (Some "complete") = {| code := 200; sent := Clients l3 |}
    ∧ l1 ++ l2 ++ l3 ≡ₚ db.
Proof.
  intros Hall. eexists. eexists. eexists.
  split; [reflexivity|]. split; [reflexivity|]. split; [reflexivity|].
  by apply lanes_cover.
Qed.

Lemma listings_partition_the_table_witness :
  ∃ l1 l2 l3,
    get_clients [A; D; B; E] (Some "backlog") = {| code := 200; sent := Clients l1 |}
    ∧ get_clients [A; D; B; E] (Some "in-progress")
      = {| code := 200; sent := Clients l2 |}
    ∧ get_clients [A; D; B; E] (Some "complete") = {| code := 200; sent := Clients l3 |}
    ∧ l1 ++ l2 ++ l3 ≡ₚ [A; D; B; E].
Proof.
  apply (listings_partition_the_table [A; D; B; E]). compute_done.
Defined.

(** X13: a listing with a usable status never answers with a client of
    another status, and answers 400 without any client for a status
    that is not one of the three. *)
Theorem listing_by_status db s :
  s ≠ "" →
  (s ∈ ["backlog"; "in-progress"; "complete"] →
   ∃ l, get_clients db (Some s) = {| code := 200; sent := Clients l |}
        ∧ l `sublist_of` db
        ∧ ∀ c, c ∈ l ↔ c ∈ db ∧ client.status c = s)
  ∧ (s ∉ ["backlog"; "in-progress"; "complete"] →
     ∃ m, get_clients db (Some s) = {| code := 400; sent := Message m |}).
Proof.
  intros Hs. split.
  - intros Hin. exists (lane s db). split; [by apply get_clients_lane|].
    split; [apply sublist_filter|].
    intros c. rewrite elem_of_lane. tauto.
  - intros Hout. unfold get_clients. rewrite (truthy_status_Some s Hs).
    simpl default.
    rewrite !bool_decide_eq_true_2; [by eexists|..];
      intros ->; apply Hout; repeat first [by left|right].
Qed.

Lemma listing_by_status_witness :
  (∃ l, get_clients [A; D; B; E] (Some "backlog")
        = {| code := 200; sent := Clients l |}
        ∧ l `sublist_of` [A; D; B; E]
        ∧ ∀ c, c ∈ l ↔ c ∈ [A; D; B; E] ∧ client.status c = "backlog")
  ∧ ∃ m, get_clients [A; D; B; E] (Some "done") = {| code := 400; sent := Message m |}.
Proof.
  destruct (listing_by_status [A; D; B; E] "backlog") as [Hin _]; [discriminate|].
  destruct (listing_by_status [A; D; B; E] "done") as [_ Hout]; [discriminate|].
  split.
  - apply Hin. compute_done.
  - apply Hout. compute_done.
Defined.

(** ** Looking up one client *)

Lemma get_by_id_None db id : get_by_id db id = None ↔ id ∉ client.id <$> db.
Proof.
  rewrite get_by_id_target. unfold target. split.
  - intros H Hin. destruct (list_find _ db) as [[? ?]|] eqn:Hf; [done|].
    apply list_find_None in Hf. rewrite Forall_forall in Hf.
    apply list_elem_of_fmap in Hin as (r & -> & Hr). by apply (Hf r).
  - intros Hout. destruct (list_find _ db) as [[i r]|] eqn:Hf; [|done].
    apply list_find_Some in Hf as (Hi & <- & _). exfalso. apply Hout.
    apply list_elem_of_fmap_2. by eapply list_elem_of_lookup_2.
Qed.

(** X14: [validateId] accepts exactly the integers that are the
    identifier of a row of the table. *)
Theorem validateId_accepts db id :
  validateId db id = valid ↔ ∃ i, id = Some i ∧ i ∈ client.id <$> db.
Proof.
  unfold validateId. destruct id as [i|].
  - destruct (get_by_id db i) eqn:Hg.
    + split; [|done]. intros _. exists i. split; [done|].
      destruct (decide (i ∈ client.id <$> db)) as [|Hout]; [done|].
      apply get_by_id_None in Hout. congruence.
    + split; [done|]. intros (? & [= <-] & Hin).
      apply get_by_id_None in Hg. done.
  - split; [done|]. by intros (? & ? & _).
Qed.

Lemma validateId_accepts_witness :
  validateId [A; B; C] (Some 2) = valid
  ∧ ¬ validateId [A; B; C] (Some 9) = valid.
Proof.
  split.
  - apply (validateId_accepts [A; B; C] (Some 2)). exists 2.
    split; [reflexivity|compute_done].
  - intros H. apply (validateId_accepts [A; B; C] (Some 9)) in H as (i & [= <-] & Hin).
    revert Hin. compute_done.
Defined.

(** X15: on a table with unique identifiers, looking up a stored client
    by its identifier sends one response, 200 with that client. *)
Theorem get_client_stored db r :
  unique_ids db → r ∈ db →
  get_client db (Some (client.id r)) = [{| code := 200; sent := Client (Some r) |}].
Proof.
  intros Hnd Hr.
  destruct (list_find_elem_of (λ c, client.id c = client.id r) db r Hr eq_refl)
    as [[k c] Hf].
  rewrite (get_client_found db (client.id r) k c Hf).
  apply list_find_Some in Hf as (Hk & Hid & _).
  by rewrite (unique_ids_eq db c r Hnd (list_elem_of_lookup_2 _ _ _ Hk) Hr Hid).
Qed.

Lemma get_client_stored_witness :
  get_client [A; B; C] (Some (client.id B))
  = [{| code := 200; sent := Client (Some B) |}].
Proof.
  apply (get_client_stored [A; B; C] B).
  - unfold unique_ids. compute_done.
  - compute_done.
Defined.

(** X16: looking up an identifier no row has, or one that is not an
    integer, sends the 400 message and then, since that branch does not
    return, a second response with status 200 and no client. *)
Theorem get_client_unknown db id :
  (∀ i, id = Some i → i ∉ client.id <$> db) →
  ∃ m, get_client db id
       = [{| code := 400; sent := Message m |};
          {| code := 200; sent := Client None |}].
Proof.
  intros Hout. unfold get_client, validateId. destruct id as [i|]; simpl.
  - specialize (Hout i eq_refl). apply get_by_id_None in Hout.
    rewrite Hout. by eexists.
  - by eexists.
Qed.

Lemma get_client_unknown_witness :
  ∃ m, get_client [A; B; C] (Some 9)
       = [{| code := 400; sent := Message m |};
          {| code := 200; sent := Client None |}].
Proof.
  apply (get_client_unknown [A; B; C] (Some 9)).
  intros i [= <-]. compute_done.
Defined.

(** ** The validator and the update route *)

(** X17: the update route meets a missing client, and issues nothing,
    exactly for the identifiers [validateId] rejects; for those it
    accepts it runs, or is still in a shift loop when the fuel is
    spent. *)
Theorem put_rejects_what_validateId_rejects fuel db id status priority :
  put_client fuel db id status priority = Rejected
  ↔ validateId db (Some id) ≠ valid.
Proof.
  unfold validateId. rewrite get_by_id_target.
  unfold put_client, all. simpl table.
  destruct (target db id) as [[k c]|] eqn:Ht; simpl.
  - split; [|done]. intros H. exfalso. revert H. cbv zeta.
    destruct (if _ && _ then priority_branch _ _ _ _ _ _ else _); [|done].
    destruct (if _ && negb _ then _ else _).
    by destruct (if _ && truthy_priority _ then _ else _).
  - split; [by intros _ ?|done].
Qed.

Lemma put_rejects_what_validateId_rejects_witness :
  put_client 0 [A; B; C] 9 (Some "backlog") (Some 1) = Rejected
  ∧ validateId [A; B; C] (Some 9) ≠ valid.
Proof.
  pose proof (put_rejects_what_validateId_rejects 0 [A; B; C] 9 (Some "backlog")
                (Some 1)) as [H1 H2].
  split.
  - apply H2. discriminate.
  - apply H1. reflexivity.
Defined.

(** * The arithmetic of the handler on safe integers *)

(** On a table of safe priorities and for a safe requested priority, the
    handler adds 1 only to safe integers, and every priority it writes
    is an integer a double holds exactly: the arithmetic of the integers
    used in this development is then the arithmetic of the source. *)

Lemma shift_statements_writes step clients status cur n :
  Forall (λ q, ∃ i, (1 ≤ i ≤ n)%nat
                    ∧ statement_priority q = cur + step * Z.of_nat i)
         (shift_statements step clients status cur n).
Proof.
  revert cur. induction n as [|n IH]; intros cur; simpl; [constructor|].
  apply Forall_app. split.
  - destruct (occupant clients status cur) as [[? m]|]; repeat constructor.
    exists 1%nat. split; [lia|]. simpl. lia.
  - eapply Forall_impl; [apply IH|]. intros q (i & Hi & ->).
    exists (S i). split; [lia|]. lia.
Qed.

Lemma for_statements_writes test step l :
  Forall (λ q, ∃ a, a ∈ l ∧ test a = true
                    ∧ statement_priority q = client.priority a + step)
         (for_statements test step l).
Proof.
  induction l as [|c l IH]; [constructor|].
  rewrite for_statements_cons. apply Forall_app. split.
  - destruct (test c) eqn:Htest; repeat constructor.
    exists c. split; [by left|done].
  - eapply Forall_impl; [exact IH|]. intros q (a & ? & ? & ?).
    exists a. split; [by right|done].
Qed.

Lemma row_after_priority qs r :
  exact_integer (client.priority r) →
  Forall (λ q, exact_integer (statement_priority q)) qs →
  exact_integer (client.priority (row_after qs r)).
Proof.
  intros Hr Hqs. revert r Hr.
  induction Hqs as [|q qs Hq _ IH]; intros r Hr; [done|].
  rewrite row_after_cons. apply IH.
  destruct q; simpl in *; by case_bool_decide.
Qed.

Lemma safe_exact z : safe_integer z → exact_integer z.
Proof. unfold safe_integer, exact_integer. lia. Qed.

Lemma pull_up_exact db s O qs :
  safe_priorities db → safe_integer O →
  Forall (λ q, exact_integer (statement_priority q)) qs →
  Forall (λ q, exact_integer (statement_priority q))
         (for_statements (below_in s O) (-1) (row_after qs <$> db)).
Proof.
  intros Hdb HO Hqs.
  eapply Forall_impl; [apply for_statements_writes|].
  intros q (a & Ha & Htest & ->).
  apply list_elem_of_fmap in Ha as (r & -> & Hr).
  assert (exact_integer (client.priority (row_after qs r))) as Hex.
  { apply row_after_priority; [|done]. apply safe_exact.
    unfold safe_priorities in Hdb. rewrite Forall_forall in Hdb. by apply Hdb. }
  unfold below_in in Htest. apply andb_true_iff in Htest as [Hgt _].
  apply bool_decide_eq_true in Hgt.
  unfold safe_integer, exact_integer in *. lia.
Qed.

Lemma maxPriority_safe db L :
  safe_priorities db → 0 ≤ maxPriority db L < 2 ^ 53.
Proof.
  intros Hdb. split; [apply maxPriority_nonneg|].
  unfold maxPriority. rewrite maxPriority_from.
  assert (Forall (λ p, p < 2 ^ 53) (client.priority <$> lane L db)) as Hall.
  { apply Forall_fmap, Forall_forall. intros r Hr%elem_of_lane.
    destruct Hr as [_ Hr]. unfold safe_priorities in Hdb.
    rewrite Forall_forall in Hdb. apply (Hdb r Hr). }
  revert Hall. generalize (client.priority <$> lane L db). intros ps Hall.
  induction Hall as [|p ps Hp _ IH]; simpl; lia.
Qed.

(** Every priority a request writes to the store is exact. *)
Lemma request_writes_exact db k c id status priority :
  safe_priorities db →
  (∀ P, priority = Some P → safe_integer P) →
  target db id = Some (k, c) →
  Forall (λ q, exact_integer (statement_priority q))
         (request_statements db k c id status priority).
Proof.
  intros Hdb HP Ht. destruct (target_Some _ _ _ _ Ht) as [Hk Hid].
  assert (c ∈ db) as Hc by (by eapply list_elem_of_lookup_2).
  assert (safe_integer (client.priority c)) as HO.
  { unfold safe_priorities in Hdb. rewrite Forall_forall in Hdb. by apply Hdb. }
  assert (truthy_priority priority = true → safe_integer (default 0 priority))
    as HP'.
  { destruct priority as [P|]; [|done]. intros _. by apply HP. }
  unfold request_statements. cbv zeta.
  set (sc := truthy_status status && bool_decide (status ≠ Some (client.status c))).
  set (pc := truthy_priority priority && bool_decide (priority ≠ Some (client.priority c))).
  set (qs1 := if pc then _ else []).
  assert (Forall (λ q, exact_integer (statement_priority q)) qs1) as H1.
  { unfold qs1. destruct pc eqn:Hpc; [|constructor].
    assert (safe_integer (default 0 priority)) as HPs.
    { apply HP'. unfold pc in Hpc. by destruct (truthy_priority priority). }
    apply Forall_app. split; [|constructor; [by apply safe_exact|constructor]].
    eapply Forall_impl; [apply shift_statements_writes|].
    intros q (i & Hi & ->).
    unfold safe_integer, exact_integer in *. case_bool_decide; lia. }
  set (qs2 := if sc && negb (truthy_priority priority) then _ else []).
  assert (Forall (λ q, exact_integer (statement_priority q)) qs2) as H2.
  { unfold qs2. destruct (sc && negb (truthy_priority priority)); [|constructor].
    assert (exact_integer (maxPriority db (default "" status) + 1)) as Hmax.
    { pose proof (maxPriority_safe db (default "" status) Hdb).
      unfold exact_integer. lia. }
    constructor; [done|]. rewrite run_row_after.
    apply pull_up_exact; [done..|].
    apply Forall_app. split; [done|]. constructor; [done|constructor]. }
  apply Forall_app. split; [done|]. apply Forall_app. split; [done|].
  destruct (sc && truthy_priority priority) eqn:H3; [|constructor].
  assert (safe_integer (default 0 priority)) as HPs.
  { apply HP'. by destruct sc, (truthy_priority priority). }
  unfold status_priority_statements. cbv zeta.
  set (push := for_statements _ 1 _).
  assert (Forall (λ q, exact_integer (statement_priority q)) push) as Hpush.
  { unfold push. eapply Forall_impl; [apply for_statements_writes|].
    intros q (a & Ha & _ & ->).
    assert (safe_integer (client.priority a)) as Hsafe.
    { apply list_elem_of_lookup in Ha as [j Hj].
      apply list_lookup_insert_Some in Hj as [(_ & <- & _)|[_ Hj]]; [done|].
      unfold safe_priorities in Hdb. rewrite Forall_forall in Hdb.
      apply Hdb. by eapply list_elem_of_lookup_2. }
    unfold safe_integer, exact_integer in *. lia. }
  assert (Forall (λ q, exact_integer (statement_priority q))
                 (push ++ [UPDATE_status_priority (default "" status)
                             (default 0 priority) id])) as Hmove.
  { apply Forall_app. split; [done|]. constructor; [by apply safe_exact|constructor]. }
  apply Forall_app. split; [done|].
  rewrite row_after_row_after.
  apply pull_up_exact; [done..|].
  apply Forall_app. split; [|done]. apply Forall_app. by split.
Qed.
